(** * SPI operated motor controller: the UI task and its services

    A shallow embedding of the uC/OS application in [MSPI.c], [SPI.c] and
    [PWM.c]: the shared variables of the SPI and PWM modules, their accessor
    functions, and the body of the [UITask] loop as a function of the message
    taken from the task queue.

    Every kernel call, every access to a shared variable and every call of
    the LCD driver is an [action]; a function of the source is the list of
    actions it performs, in program order.  The sequential meaning of such a
    list is [run]; [Interleaving] schedules the lists of two tasks, an
    object that is pended on excluding a second holder.

    Kernel calls are taken to succeed with [OS_ERR_NONE], so that none of the
    [while(os_err != OS_ERR_NONE){}] traps is entered. *)

From Stdlib Require Import ZArith List String Bool Lia.
Import ListNotations.
Open Scope Z_scope.

(** ** C integer types

    [INT8U] and [INT16U] objects are numbers in [Z]; an assignment to an
    object converts the value to the object's type. *)

Definition INT8U_of (z : Z) : Z := z mod 2 ^ 8.
Definition INT16U_of (z : Z) : Z := z mod 2 ^ 16.

(** ** Key codes, [uCOSKey.h] *)

Definition ONE_KEY : Z := 0x31.
Definition TWO_KEY : Z := 0x32.
Definition THR_KEY : Z := 0x33.
Definition FOUR_KEY : Z := 0x34.
Definition FIV_KEY : Z := 0x35.
Definition SIX_KEY : Z := 0x36.
Definition SEV_KEY : Z := 0x37.
Definition EGT_KEY : Z := 0x38.
Definition NIN_KEY : Z := 0x39.
Definition ZERO_KEY : Z := 0x30.
Definition STAR_KEY : Z := 0x2A.
Definition NUM_KEY : Z := 0x23.
Definition A_KEY : Z := 0x11.
Definition B_KEY : Z := 0x12.
Definition C_KEY : Z := 0x13.
Definition D_KEY : Z := 0x14.
Definition NUMBER_KEY_TO_DEC_FACTOR : Z := 48.

(** ** Constants of [MSPI.c] *)

Definition NO_FAULT : Z := 0x00.
Definition EMERGENCY_STOP : Z := 0x0000.

Definition STATUS_ROW : Z := 1.
Definition FIRST_COL : Z := 1.
Definition UI_ROW : Z := 2.
Definition FAULT_MSG_OUT_COLLEM : Z := 8.
Definition UI_PWM_MSG_COL : Z := 10.
Definition UI_OUT_COL : Z := 5.
Definition UI_PWM_WRITE : Z := 14.
Definition UI_PWM_TENS : Z := 15.
Definition UI_PWM_ONES : Z := 16.

Definition CURSOR_ON : Z := 1.
Definition CURSOR_OFF : Z := 0.
Definition CURSOR_BLINK : Z := 1.

Definition OUTPUT_ONE_MASK : Z := 1.
Definition OUTPUT_TWO_MASK : Z := 2.
Definition OUTPUT_THR_MASK : Z := 4.
Definition OUTPUT_FOU_MASK : Z := 8.
Definition OUTPUT_FIV_MASK : Z := 16.
Definition OUTPUT_SIX_MASK : Z := 32.
Definition OUTPUT_SEV_MASK : Z := 64.
Definition OUTPUT_EGT_MASK : Z := 128.

Definition OUT_ONE_MSG : string := "OUT1".
Definition OUT_TWO_MSG : string := "OUT2".
Definition OUT_THR_MSG : string := "OUT3".
Definition OUT_FOU_MSG : string := "OUT4".
Definition OUT_FIV_MSG : string := "OUT5".
Definition OUT_SIX_MSG : string := "OUT6".
Definition OUT_SEV_MSG : string := "OUT7".
Definition OUT_EGT_MSG : string := "OUT8".
Definition MULIT_FAULT_MSG : string := "Many".
Definition FAULT_MSG : string := "Fault: ".
Definition SET_MSG : string := "SET:".
Definition PWM_MSG : string := "PWM%".
Definition NO_OUTPUT_MSG : string := "Outputs Off".

(** ** Kernel objects, shared variables, LCD calls *)

(** The mutexes and semaphores the three modules create. *)
Inductive os_obj : Type :=
  | SpiDataKey      (* OS_MUTEX, SPI.c *)
  | NewSpiData      (* OS_SEM,   SPI.c *)
  | spiFaultFlag    (* OS_SEM,   SPI.c *)
  | PwmRateKey      (* OS_MUTEX, MSPI.c *)
  | NewPwmRate      (* OS_SEM,   MSPI.c *)
  | PWMChgFlag.     (* OS_SEM,   PWM.c *)

(** The file-scope variables shared between tasks. *)
Inductive cell : Type :=
  | c_spiMsg        (* static INT16U spiMsg;        SPI.c *)
  | c_spiFault      (* static INT8U  spiFault = 0;  SPI.c *)
  | c_pwmrate       (* static INT8U  pwmrate;       MSPI.c *)
  | c_pwm_value.    (* static INT16U pwm_value = 0; PWM.c *)

Inductive layer : Type := UI_LAYER | FAULT_LAYER.

(** Calls of the layered LCD driver, with their arguments. *)
Inductive lcd_call : Type :=
  | LcdDispString (row col : Z) (l : layer) (s : string)
  | LcdDispDecByte (row col : Z) (l : layer) (value : Z) (lz : Z)
  | LcdCursor (row col : Z) (l : layer) (on blink : Z)
  | LcdDispClrLine (row : Z) (l : layer)
  | LcdDispClear (l : layer)
  | LcdShowLayer (l : layer)
  | LcdHideLayer (l : layer).

Inductive action : Type :=
  | OSMutexPend (o : os_obj)
  | OSMutexPost (o : os_obj)
  | OSSemPend (o : os_obj)
  | OSSemPost (o : os_obj)
  | Store (c : cell) (v : Z)
  | Fetch (c : cell)
  | Lcd (call : lcd_call).

Definition os_obj_eqb (a b : os_obj) : bool :=
  match a, b with
  | SpiDataKey, SpiDataKey | NewSpiData, NewSpiData
  | spiFaultFlag, spiFaultFlag | PwmRateKey, PwmRateKey
  | NewPwmRate, NewPwmRate | PWMChgFlag, PWMChgFlag => true
  | _, _ => false
  end.

Definition cell_eqb (a b : cell) : bool :=
  match a, b with
  | c_spiMsg, c_spiMsg | c_spiFault, c_spiFault
  | c_pwmrate, c_pwmrate | c_pwm_value, c_pwm_value => true
  | _, _ => false
  end.

(** ** The shared state and the sequential meaning of actions *)

Record world : Type := mkWorld {
  spiMsg : Z;
  spiFault : Z;
  pwmrate : Z;
  pwm_value : Z;
  trace : list action          (* everything performed so far, oldest first *)
}.

(** Static storage is zero at start-up. *)
Definition initial_world : world :=
  {| spiMsg := 0; spiFault := 0; pwmrate := 0; pwm_value := 0; trace := [] |}.

Definition wrap (c : cell) (v : Z) : Z :=
  match c with
  | c_spiMsg | c_pwm_value => INT16U_of v
  | c_spiFault | c_pwmrate => INT8U_of v
  end.

Definition assign (c : cell) (v : Z) (w : world) : world :=
  match c with
  | c_spiMsg =>
      {| spiMsg := wrap c v; spiFault := spiFault w; pwmrate := pwmrate w;
         pwm_value := pwm_value w; trace := trace w |}
  | c_spiFault =>
      {| spiMsg := spiMsg w; spiFault := wrap c v; pwmrate := pwmrate w;
         pwm_value := pwm_value w; trace := trace w |}
  | c_pwmrate =>
      {| spiMsg := spiMsg w; spiFault := spiFault w; pwmrate := wrap c v;
         pwm_value := pwm_value w; trace := trace w |}
  | c_pwm_value =>
      {| spiMsg := spiMsg w; spiFault := spiFault w; pwmrate := pwmrate w;
         pwm_value := wrap c v; trace := trace w |}
  end.

Definition log_action (a : action) (w : world) : world :=
  {| spiMsg := spiMsg w; spiFault := spiFault w; pwmrate := pwmrate w;
     pwm_value := pwm_value w; trace := trace w ++ [a] |}.

(** One action performed by a task running alone. *)
Definition perform (w : world) (a : action) : world :=
  match a with
  | Store c v => log_action a (assign c v w)
  | _ => log_action a w
  end.

Definition run (acts : list action) (w : world) : world :=
  fold_left perform acts w.

(** ** Pointers

    The accessors take their argument through a pointer.  A pointer is either
    the address of an object of the caller, represented by the value the
    object holds at the call, or a number used as an address.  Reading
    through the latter reads the memory image [flash] of the target (on the
    K65 the vector table sits at address 0), little-endian. *)

Inductive pointer : Type :=
  | AddressOf (held : Z)
  | Absolute (addr : Z).

Section WithMemoryImage.

Variable flash : Z -> Z.        (* byte at each absolute address *)

Definition load8 (addr : Z) : Z := INT8U_of (flash addr).
Definition load16 (addr : Z) : Z := load8 addr + 2 ^ 8 * load8 (addr + 1).

Definition deref8 (p : pointer) : Z :=
  match p with AddressOf v => v | Absolute a => load8 a end.
Definition deref16 (p : pointer) : Z :=
  match p with AddressOf v => v | Absolute a => load16 a end.

(** ** [SPI.c] *)

(** [getSpiData(passMsg, os_err)]: the object handed to [OSMutexPend] and
    [OSMutexPost] is [NewSpiData]. *)
Definition getSpiData : list action :=
  [OSMutexPend NewSpiData; Fetch c_spiMsg; OSMutexPost NewSpiData].

(** [setSpiData(passmsg, os_err)]: [spiMsg = *passmsg] under [SpiDataKey],
    then the post of [NewSpiData]. *)
Definition setSpiData (passmsg : pointer) : list action :=
  [OSMutexPend SpiDataKey; Store c_spiMsg (deref16 passmsg);
   OSMutexPost SpiDataKey; OSSemPost NewSpiData].

(** [SPIPend(tout, os_err)]: pends on the fault flag, returns [spiFault];
    the return type is [INT8U]. *)
Definition SPIPend (w : world) : Z * world :=
  let w' := run [OSSemPend spiFaultFlag; Fetch c_spiFault] w in
  (INT8U_of (spiFault w'), w').

(** ** [PWM.c] *)

(** [PWMRate()]: posts [PWMChgFlag] and returns [pwm_value]. *)
Definition PWMRate (w : world) : Z * world :=
  let w' := run [OSSemPost PWMChgFlag; Fetch c_pwm_value] w in
  (INT16U_of (pwm_value w'), w').

(** ** [MSPI.c]: the duty cycle accessors *)

Definition getPwmRate : list action :=
  [OSMutexPend PwmRateKey; Fetch c_pwmrate; OSMutexPost PwmRateKey].

Definition setPwmRate (passpwm : pointer) : list action :=
  [OSMutexPend PwmRateKey; Store c_pwmrate (deref8 passpwm);
   OSMutexPost PwmRateKey; OSSemPost NewPwmRate].

(** ** [MSPI.c]: the UI task *)

Inductive SYS_STATE : Type := RUNNING | ADJUST | FAULT.
Inductive SETTING_STATE : Type := OUT | TENS | ONES.

(** The automatic variables of [UITask] that live across iterations. *)
Record locals : Type := mkLocals {
  currentstate : SYS_STATE;
  currentplace : SETTING_STATE;
  whichOutput : Z;             (* INT8U *)
  nextPWMRate : Z;             (* INT8U *)
  nextSpiMsg : Z               (* INT16U *)
}.

(** On entry [currentstate = RUNNING] and [currentplace = OUT]; the three
    other variables have no initialiser. *)
Definition UITask_entry (wo np ns : Z) : locals :=
  {| currentstate := RUNNING; currentplace := OUT;
     whichOutput := wo; nextPWMRate := np; nextSpiMsg := ns |}.

Definition set_state (s : SYS_STATE) (ui : locals) : locals :=
  {| currentstate := s; currentplace := currentplace ui;
     whichOutput := whichOutput ui; nextPWMRate := nextPWMRate ui;
     nextSpiMsg := nextSpiMsg ui |}.

Definition set_place (p : SETTING_STATE) (ui : locals) : locals :=
  {| currentstate := currentstate ui; currentplace := p;
     whichOutput := whichOutput ui; nextPWMRate := nextPWMRate ui;
     nextSpiMsg := nextSpiMsg ui |}.

Definition set_rate (r : Z) (ui : locals) : locals :=
  {| currentstate := currentstate ui; currentplace := currentplace ui;
     whichOutput := whichOutput ui; nextPWMRate := INT8U_of r;
     nextSpiMsg := nextSpiMsg ui |}.

Definition set_output (o m : Z) (ui : locals) : locals :=
  {| currentstate := currentstate ui; currentplace := currentplace ui;
     whichOutput := INT8U_of o; nextPWMRate := nextPWMRate ui;
     nextSpiMsg := INT16U_of m |}.

Definition is_digit_key (k : Z) : bool := (ZERO_KEY <=? k) && (k <=? NIN_KEY).

(** The [if]/[else if] chain that names the output at fault. *)
Definition fault_name (copiedmsg : Z) : string :=
  if copiedmsg =? OUTPUT_ONE_MASK then OUT_ONE_MSG
  else if copiedmsg =? OUTPUT_TWO_MASK then OUT_TWO_MSG
  else if copiedmsg =? OUTPUT_THR_MASK then OUT_THR_MSG
  else if copiedmsg =? OUTPUT_FOU_MASK then OUT_FOU_MSG
  else if copiedmsg =? OUTPUT_FIV_MASK then OUT_FIV_MSG
  else if copiedmsg =? OUTPUT_SIX_MASK then OUT_SIX_MSG
  else if copiedmsg =? OUTPUT_SEV_MASK then OUT_SEV_MSG
  else if copiedmsg =? OUTPUT_EGT_MASK then OUT_EGT_MSG
  else MULIT_FAULT_MSG.

(** The key press branch taken when [currentstate == RUNNING]. *)
Definition running_key (copiedmsg : Z) (ui : locals) : locals * list action :=
  if copiedmsg =? A_KEY then
    ({| currentstate := ADJUST; currentplace := OUT;
        whichOutput := 0; nextPWMRate := 0; nextSpiMsg := 0 |},
     [Lcd (LcdDispString UI_ROW FIRST_COL UI_LAYER SET_MSG);
      Lcd (LcdCursor UI_ROW UI_OUT_COL UI_LAYER CURSOR_ON CURSOR_BLINK)])
  else (ui, []).

(** [case OUT]. *)
Definition adjust_out (copiedmsg : Z) (ui : locals) : locals * list action :=
  if copiedmsg =? FOUR_KEY then
    (set_place TENS (set_output 4 OUTPUT_ONE_MASK ui),
     [Lcd (LcdDispString UI_ROW UI_OUT_COL UI_LAYER OUT_FOU_MSG);
      Lcd (LcdDispString UI_ROW UI_PWM_MSG_COL UI_LAYER PWM_MSG);
      Lcd (LcdCursor UI_ROW UI_PWM_TENS UI_LAYER CURSOR_ON CURSOR_BLINK);
      Lcd (LcdShowLayer UI_LAYER)])
  else if copiedmsg =? SEV_KEY then
    (set_place TENS (set_output 7 OUTPUT_THR_MASK ui),
     [Lcd (LcdDispString UI_ROW UI_OUT_COL UI_LAYER OUT_SEV_MSG);
      Lcd (LcdDispString UI_ROW UI_PWM_MSG_COL UI_LAYER PWM_MSG);
      Lcd (LcdCursor UI_ROW UI_PWM_TENS UI_LAYER CURSOR_ON CURSOR_BLINK);
      Lcd (LcdShowLayer UI_LAYER)])
  else (ui, []).

(** [case TENS]. *)
Definition adjust_tens (copiedmsg : Z) (ui : locals) : locals * list action :=
  if is_digit_key copiedmsg then
    let ui1 :=
      set_rate (10 * (copiedmsg - NUMBER_KEY_TO_DEC_FACTOR)
                + (nextPWMRate ui - 10 * Z.quot (nextPWMRate ui) 10)) ui in
    (set_place ONES ui1,
     [Lcd (LcdDispDecByte UI_ROW UI_PWM_WRITE UI_LAYER (nextPWMRate ui1) 0);
      Lcd (LcdCursor UI_ROW UI_PWM_ONES UI_LAYER CURSOR_ON CURSOR_BLINK);
      Lcd (LcdShowLayer UI_LAYER)])
  else if copiedmsg =? B_KEY then
    (set_rate 0 (set_place OUT ui),
     [Lcd (LcdCursor UI_ROW UI_OUT_COL UI_LAYER CURSOR_ON CURSOR_BLINK)])
  else (ui, []).

(** The status bar written when a value is accepted. *)
Definition status_bar (ui : locals) : list action :=
  [Lcd (LcdDispClear UI_LAYER)]
  ++ (if whichOutput ui =? 4 then
        [Lcd (LcdDispString STATUS_ROW FIRST_COL UI_LAYER OUT_FOU_MSG)]
      else if whichOutput ui =? 7 then
        [Lcd (LcdDispString STATUS_ROW FIRST_COL UI_LAYER OUT_SEV_MSG)]
      else [])
  ++ [Lcd (LcdDispString STATUS_ROW UI_PWM_MSG_COL UI_LAYER PWM_MSG);
      Lcd (LcdDispDecByte STATUS_ROW UI_PWM_WRITE UI_LAYER (nextPWMRate ui) 0);
      Lcd (LcdCursor UI_ROW FIRST_COL UI_LAYER CURSOR_OFF CURSOR_OFF)].

(** [case ONES]. *)
Definition adjust_ones (copiedmsg : Z) (ui : locals) : locals * list action :=
  if is_digit_key copiedmsg then
    let ui1 :=
      set_rate ((copiedmsg - NUMBER_KEY_TO_DEC_FACTOR)
                + 10 * Z.quot (nextPWMRate ui) 10) ui in
    (ui1,
     [Lcd (LcdDispDecByte UI_ROW UI_PWM_WRITE UI_LAYER (nextPWMRate ui1) 0);
      Lcd (LcdCursor UI_ROW UI_PWM_ONES UI_LAYER CURSOR_ON CURSOR_BLINK)])
  else if copiedmsg =? B_KEY then
    (set_place TENS ui,
     [Lcd (LcdCursor UI_ROW UI_PWM_TENS UI_LAYER CURSOR_ON CURSOR_BLINK)])
  else if copiedmsg =? A_KEY then
    (set_state RUNNING ui,
     (if nextPWMRate ui =? 0 then setSpiData (AddressOf (nextSpiMsg ui))
      else setSpiData (Absolute EMERGENCY_STOP)
           ++ setPwmRate (AddressOf (nextPWMRate ui)))
     ++ status_bar ui)
  else (ui, []).

(** The emergency stop branch: both accessors receive the constant where
    they expect a pointer. *)
Definition emergency_stop (ui : locals) : locals * list action :=
  (set_state RUNNING ui,
   setSpiData (Absolute EMERGENCY_STOP)
   ++ setPwmRate (Absolute (INT8U_of EMERGENCY_STOP))
   ++ [Lcd (LcdDispClrLine STATUS_ROW UI_LAYER);
       Lcd (LcdDispString STATUS_ROW FIRST_COL UI_LAYER NO_OUTPUT_MSG);
       Lcd (LcdHideLayer FAULT_LAYER);
       Lcd (LcdShowLayer UI_LAYER)]).

(** The branch for a message of two bytes. *)
Definition spi_message (copiedmsg : Z) (ui : locals) : locals * list action :=
  match copiedmsg =? NO_FAULT, currentstate ui with
  | true, FAULT =>
      (set_state RUNNING ui,
       [Lcd (LcdHideLayer FAULT_LAYER); Lcd (LcdShowLayer UI_LAYER)])
  | _, _ =>
      (set_state FAULT ui,
       [Lcd (LcdHideLayer UI_LAYER);
        Lcd (LcdDispString STATUS_ROW FIRST_COL FAULT_LAYER FAULT_MSG);
        Lcd (LcdDispString STATUS_ROW FAULT_MSG_OUT_COLLEM FAULT_LAYER
               (fault_name copiedmsg));
        Lcd (LcdShowLayer FAULT_LAYER)])
  end.

(** One iteration of the [while(1)] loop of [UITask], after [OSTaskQPend]
    has returned: [copiedmsg] is the 16 bit word read through the queue
    pointer ([copiedmsg = *queuedmsg], also for a message of one byte) and
    [msg_size] the size the kernel reports.  The result is the new value of
    the locals and the actions performed.  Past the test for [D_KEY] the
    conjunct [copiedmsg != D_KEY] of the later tests is true, and a key in
    [FAULT] reaches the final empty [else]. *)
Definition UITask_step (msg_size copiedmsg : Z) (ui : locals)
  : locals * list action :=
  if msg_size =? 1 then
    if copiedmsg =? D_KEY then emergency_stop ui
    else
      match currentstate ui with
      | RUNNING => running_key copiedmsg ui
      | ADJUST =>
          match currentplace ui with
          | OUT => adjust_out copiedmsg ui
          | TENS => adjust_tens copiedmsg ui
          | ONES => adjust_ones copiedmsg ui
          end
      | FAULT => (ui, [])
      end
  else if msg_size =? 2 then spi_message copiedmsg ui
  else (ui, []).

(** The task and the shared state together. *)
Definition UITask_iter (msg : Z * Z) (s : locals * world) : locals * world :=
  let '(ui', acts) := UITask_step (fst msg) (snd msg) (fst s) in
  (ui', run acts (snd s)).

Definition UITask_loop (msgs : list (Z * Z)) (s : locals * world)
  : locals * world :=
  fold_left (fun s m => UITask_iter m s) msgs s.

(** A key press is a message of one byte. *)
Definition key (k : Z) : Z * Z := (1, k).
(** A word from the SPI service is a message of two bytes. *)
Definition spi (v : Z) : Z * Z := (2, v).

(** ** [MSPI.c]: the SPI forwarder *)

(** One iteration of [UISPISrvTask]: [spimsg = SPIPend(0, &os_err)], then the
    post of [&spimsg] with [sizeof(spimsg)]. *)
Definition UISPISrvTask_iter (w : world) : (Z * Z) * world :=
  let '(r, w') := SPIPend w in
  ((2, INT16U_of r), w').

End WithMemoryImage.

(** A memory image that starts with the vector table of a K65 build whose
    initial stack pointer is [0x2002FFF8]. *)
Definition vector_table (addr : Z) : Z :=
  match addr with
  | 0 => 0xF8 | 1 => 0xFF | 2 => 0x02 | 3 => 0x20
  | _ => 0
  end.

(** A memory image that reads as zero everywhere. *)
Definition zero_image (addr : Z) : Z := 0.

(** ** Vocabulary of the statements *)

(** The four LCD calls of the fault branch. *)
Definition fault_banner (v : Z) : list action :=
  [Lcd (LcdHideLayer UI_LAYER);
   Lcd (LcdDispString STATUS_ROW FIRST_COL FAULT_LAYER FAULT_MSG);
   Lcd (LcdDispString STATUS_ROW FAULT_MSG_OUT_COLLEM FAULT_LAYER
          (fault_name v));
   Lcd (LcdShowLayer FAULT_LAYER)].

(** The eight outputs, by ordinal, with the name the LCD shows. *)
Definition channel_names : list (Z * string) :=
  [(1, "OUT1"); (2, "OUT2"); (3, "OUT3"); (4, "OUT4");
   (5, "OUT5"); (6, "OUT6"); (7, "OUT7"); (8, "OUT8")]%string.

(** The value a shared variable holds. *)
Definition value_of (c : cell) (w : world) : Z :=
  match c with
  | c_spiMsg => spiMsg w
  | c_spiFault => spiFault w
  | c_pwmrate => pwmrate w
  | c_pwm_value => pwm_value w
  end.

(** The action assigns to the variable. *)
Definition writes (c : cell) (a : action) : bool :=
  match a with
  | Store c' _ => cell_eqb c c'
  | _ => false
  end.

(** What the accept key performs, in program order. *)
Definition commit (flash : Z -> Z) (ui : locals) : list action :=
  (if nextPWMRate ui =? 0
   then setSpiData flash (AddressOf (nextSpiMsg ui))
   else setSpiData flash (Absolute EMERGENCY_STOP)
        ++ setPwmRate flash (AddressOf (nextPWMRate ui)))
  ++ status_bar ui.

(** The output and the command word that a channel key records. *)
Definition recorded_output (sel : Z) : Z :=
  if sel =? FOUR_KEY then 4 else 7.
Definition recorded_word (sel : Z) : Z :=
  if sel =? FOUR_KEY then OUTPUT_ONE_MASK else OUTPUT_THR_MASK.

(** The stored duty cycle is a percentage below 100, and so is the
    accumulator while an adjustment is under way. *)
Definition duty_in_range (s : locals * world) : Prop :=
  0 <= pwmrate (snd s) <= 99
  /\ (currentstate (fst s) = ADJUST -> 0 <= nextPWMRate (fst s) <= 99).

(** The driver layer that receives the fault word is not part of the
    sources, which never assign [spiFault].  Wherever the 16 bit word is
    assigned to it, the object is [static INT8U spiFault]. *)
Definition fault_receipt (fault_word : Z) : list action :=
  [Store c_spiFault fault_word; OSSemPost spiFaultFlag].

(** The calls a client can make on the duty cycle and on the PWM module. *)
Inductive pwm_call : Type :=
  | call_setPwmRate (passpwm : pointer)
  | call_getPwmRate
  | call_PWMRate.

(** Runs the calls in order; the result lists what each [PWMRate] call
    returned. *)
Fixpoint pwm_calls (flash : Z -> Z) (cs : list pwm_call) (w : world)
  : list Z * world :=
  match cs with
  | [] => ([], w)
  | call_setPwmRate p :: cs' => pwm_calls flash cs' (run (setPwmRate flash p) w)
  | call_getPwmRate :: cs' => pwm_calls flash cs' (run getPwmRate w)
  | call_PWMRate :: cs' =>
      let '(r, w') := PWMRate w in
      let '(rs, w'') := pwm_calls flash cs' w' in
      (r :: rs, w'')
  end.

Definition is_PWMRate (c : pwm_call) : bool :=
  match c with call_PWMRate => true | _ => false end.

(** How often a semaphore was posted. *)
Definition posts (o : os_obj) (tr : list action) : nat :=
  List.length (filter (fun a => match a with
                           | OSSemPost o' => os_obj_eqb o o'
                           | _ => false
                           end) tr).

(** ** Two tasks taking turns

    The actions of [UITask] and of [SPITask] interleaved: a task that pends
    on an object another task holds is not scheduled. *)

Module Interleaving.

(** [UITask], the producer of the command word, and [SPITask], its
    transmitter. *)
Inductive task : Type := UI | SPI.

Definition task_eqb (a b : task) : bool :=
  match a, b with UI, UI | SPI, SPI => true | _, _ => false end.

Record config : Type := mkConfig {
  ui_todo : list action;          (* what [UITask] has left to perform *)
  spi_todo : list action;         (* what [SPITask] has left to perform *)
  holder : list (os_obj * task);  (* objects pended on and not yet posted *)
  shared : world
}.

Definition start (ui spi : list action) (w : world) : config :=
  {| ui_todo := ui; spi_todo := spi; holder := []; shared := w |}.

Definition todo (t : task) (c : config) : list action :=
  match t with UI => ui_todo c | SPI => spi_todo c end.

Definition held_by_other (o : os_obj) (t : task) (h : list (os_obj * task))
  : bool :=
  existsb (fun e => os_obj_eqb o (fst e) && negb (task_eqb t (snd e))) h.

Fixpoint release (o : os_obj) (t : task) (h : list (os_obj * task))
  : list (os_obj * task) :=
  match h with
  | [] => []
  | e :: h' =>
      if os_obj_eqb o (fst e) && task_eqb t (snd e) then h'
      else e :: release o t h'
  end.

Definition pends (o : os_obj) (tr : list action) : nat :=
  List.length (filter (fun a => match a with
                                | OSSemPend o' => os_obj_eqb o o'
                                | _ => false
                                end) tr).

(** A pend with [OS_OPT_PEND_BLOCKING] goes through when no other task holds
    the object, respectively when the semaphore has been signalled. *)
Definition enabled (t : task) (a : action) (c : config) : bool :=
  match a with
  | OSMutexPend o => negb (held_by_other o t (holder c))
  | OSSemPend o =>
      (pends o (trace (shared c)) <? posts o (trace (shared c)))%nat
  | _ => true
  end.

Definition fire (t : task) (c : config) : option config :=
  match todo t c with
  | [] => None
  | a :: rest =>
      if enabled t a c then
        let h := match a with
                 | OSMutexPend o => (o, t) :: holder c
                 | OSMutexPost o => release o t (holder c)
                 | _ => holder c
                 end in
        Some (match t with
              | UI => {| ui_todo := rest; spi_todo := spi_todo c;
                         holder := h; shared := perform (shared c) a |}
              | SPI => {| ui_todo := ui_todo c; spi_todo := rest;
                          holder := h; shared := perform (shared c) a |}
              end)
      else None
  end.

(** Runs the tasks in the order given; [None] when a task is picked that is
    blocked or has finished. *)
Fixpoint schedule (ts : list task) (c : config) : option config :=
  match ts with
  | [] => Some c
  | t :: ts' =>
      match fire t c with
      | Some c' => schedule ts' c'
      | None => None
      end
  end.

(** The next action of the task reads or writes the variable. *)
Definition accessing (x : cell) (t : task) (c : config) : bool :=
  match todo t c with
  | Store x' _ :: _ => cell_eqb x x'
  | Fetch x' :: _ => cell_eqb x x'
  | _ => false
  end.

Definition both_accessing (x : cell) (c : config) : bool :=
  accessing x UI c && accessing x SPI c.

Fixpoint drop_lock (o : os_obj) (held : list os_obj) : list os_obj :=
  match held with
  | [] => []
  | o' :: r => if os_obj_eqb o o' then r else o' :: drop_lock o r
  end.

(** The objects a function holds at its first access to the variable. *)
Fixpoint locks_at_access (x : cell) (held : list os_obj) (acts : list action)
  : option (list os_obj) :=
  match acts with
  | [] => None
  | OSMutexPend o :: r => locks_at_access x (o :: held) r
  | OSMutexPost o :: r => locks_at_access x (drop_lock o held) r
  | Store x' _ :: r =>
      if cell_eqb x x' then Some held else locks_at_access x held r
  | Fetch x' :: r =>
      if cell_eqb x x' then Some held else locks_at_access x held r
  | _ :: r => locks_at_access x held r
  end.

Fixpoint all_schedules (n : nat) : list (list task) :=
  match n with
  | O => [[]]
  | S n' =>
      [] :: map (cons UI) (all_schedules n') ++ map (cons SPI) (all_schedules n')
  end.

(** No schedule of at most [n] picks leads to both tasks at the variable. *)
Definition exclusive (x : cell) (n : nat) (c : config) : bool :=
  forallb (fun ts => match schedule ts c with
                     | Some c' => negb (both_accessing x c')
                     | None => true
                     end) (all_schedules n).

End Interleaving.

(** ** The rest of the tasks *)

(** What [UITask] performs before it enters its loop. *)
Definition UITask_preset : list action :=
  [Lcd (LcdDispString STATUS_ROW FIRST_COL UI_LAYER NO_OUTPUT_MSG);
   Lcd (LcdShowLayer UI_LAYER)].

(** The task at the top of its loop for the first time; the three locals
    without initialiser hold whatever the stack held. *)
Definition UITask_start (wo np ns : Z) : locals * world :=
  (UITask_entry wo np ns, run UITask_preset initial_world).


(** [getPwmRate(&rate, &os_err)] as a call. *)
Definition getPwmRate_call (w : world) : Z * world :=
  let w' := run getPwmRate w in (pwmrate w', w').



(** The 16 bit word read at the address of a byte object: the byte itself
    and, above it, the byte that follows it in memory. *)
Definition queue_word (first next : Z) : Z :=
  INT8U_of first + 2 ^ 8 * INT8U_of next.

(** One iteration of [UIKeySrvTask]: the key from [KeyPend] is stored in the
    [INT8U] local [keypress] and [&keypress] is posted with
    [sizeof(keypress)].  The message is given as [UITask] takes it from the
    queue, [copiedmsg = *queuedmsg] with [queuedmsg] an [INT16U] pointer;
    [next] is the byte that follows [keypress] on the stack of the task. *)
Definition UIKeySrvTask_iter (key_code next : Z) : Z * Z :=
  (1, queue_word key_code next).

(** ** Vocabulary of the further statements *)

(** The keys that a state of the task reacts to. *)
Definition meaningful (st : SYS_STATE) (pl : SETTING_STATE) (k : Z) : bool :=
  (k =? D_KEY)
  || match st with
     | RUNNING => k =? A_KEY
     | ADJUST =>
         match pl with
         | OUT => (k =? FOUR_KEY) || (k =? SEV_KEY)
         | TENS => is_digit_key k || (k =? B_KEY)
         | ONES => is_digit_key k || (k =? B_KEY) || (k =? A_KEY)
         end
     | FAULT => false
     end.

(** The messages that a state of the task reacts to. *)
Definition effective (msg_size copiedmsg : Z) (ui : locals) : bool :=
  (msg_size =? 2)
  || ((msg_size =? 1)
      && meaningful (currentstate ui) (currentplace ui) copiedmsg).

Definition is_lcd (a : action) : bool :=
  match a with Lcd _ => true | _ => false end.

(** The actions found in [UITask]: LCD calls, the two mutexes of the set
    accessors, the stores to [spiMsg] and [pwmrate], and the posts of
    [NewSpiData] and [NewPwmRate]. *)
Definition ui_action (a : action) : bool :=
  match a with
  | Lcd _ => true
  | OSMutexPend o | OSMutexPost o =>
      os_obj_eqb o SpiDataKey || os_obj_eqb o PwmRateKey
  | OSSemPost o => os_obj_eqb o NewSpiData || os_obj_eqb o NewPwmRate
  | Store c _ => cell_eqb c c_spiMsg || cell_eqb c c_pwmrate
  | OSSemPend _ | Fetch _ => false
  end.

(** The mutex under which the set accessor of a variable assigns it. *)
Definition key_of (c : cell) : option os_obj :=
  match c with
  | c_spiMsg => Some SpiDataKey
  | c_pwmrate => Some PwmRateKey
  | _ => None
  end.

(** A run of actions keeps the lock discipline, starting with [held]: at most
    one mutex is held at a time, it is posted by the end, a shared variable
    is accessed only under its own mutex, and semaphore calls and LCD calls
    happen with no mutex held. *)
Fixpoint disciplined (held : option os_obj) (acts : list action) : bool :=
  match acts with
  | [] => match held with None => true | Some _ => false end
  | OSMutexPend o :: r =>
      match held with None => disciplined (Some o) r | Some _ => false end
  | OSMutexPost o :: r =>
      match held with
      | Some o' => os_obj_eqb o o' && disciplined None r
      | None => false
      end
  | Store c _ :: r | Fetch c :: r =>
      match held, key_of c with
      | Some o, Some k => os_obj_eqb o k && disciplined held r
      | _, _ => false
      end
  | OSSemPend _ :: r | OSSemPost _ :: r | Lcd _ :: r =>
      match held with None => disciplined None r | Some _ => false end
  end.

(** How often a variable was assigned. *)
Definition stores (c : cell) (tr : list action) : nat :=
  List.length (filter (writes c) tr).

Definition layer_eqb (a b : layer) : bool :=
  match a, b with
  | UI_LAYER, UI_LAYER | FAULT_LAYER, FAULT_LAYER => true
  | _, _ => false
  end.

(** Whether a layer is shown after the actions, given what held before:
    the last [LcdShowLayer] or [LcdHideLayer] for the layer decides, and
    [None] stands for a layer that no call has touched yet. *)
Definition layer_after (l : layer) (acts : list action) (before : option bool)
  : option bool :=
  fold_left (fun shown a =>
               match a with
               | Lcd (LcdShowLayer l') =>
                   if layer_eqb l l' then Some true else shown
               | Lcd (LcdHideLayer l') =>
                   if layer_eqb l l' then Some false else shown
               | _ => shown
               end) acts before.

Definition layer_shown (l : layer) (w : world) : option bool :=
  layer_after l (trace w) None.

(** The values handed to [LcdDispDecByte]. *)
Definition shown_numbers (tr : list action) : list Z :=
  flat_map (fun a => match a with
                     | Lcd (LcdDispDecByte _ _ _ v _) => [v]
                     | _ => []
                     end) tr.

(** The selection that goes with an output: none yet, output 4, output 7. *)
Definition selection_ok (ui : locals) : Prop :=
  (whichOutput ui = 0 /\ nextSpiMsg ui = 0 /\ currentplace ui = OUT)
  \/ (whichOutput ui = 4 /\ nextSpiMsg ui = OUTPUT_ONE_MASK)
  \/ (whichOutput ui = 7 /\ nextSpiMsg ui = OUTPUT_THR_MASK).

(** The layers as they go with the state: in [FAULT] the fault layer is
    shown and the status layer hidden, otherwise the status layer is shown
    and the fault layer is not. *)
Definition layers_match (s : locals * world) : Prop :=
  match currentstate (fst s) with
  | FAULT => layer_shown FAULT_LAYER (snd s) = Some true
             /\ layer_shown UI_LAYER (snd s) = Some false
  | _ => layer_shown UI_LAYER (snd s) = Some true
         /\ layer_shown FAULT_LAYER (snd s) <> Some true
  end.

(** * Properties *)

(** ** Sequential execution *)

Lemma run_app (a b : list action) (w : world) :
  run (a ++ b) w = run b (run a w).
Proof. unfold run. apply fold_left_app. Qed.

Lemma run_nil (w : world) : run [] w = w.
Proof. reflexivity. Qed.

Lemma trace_perform (w : world) (a : action) :
  trace (perform w a) = trace w ++ [a].
Proof. destruct a; try reflexivity. destruct c; reflexivity. Qed.

Lemma trace_run (acts : list action) (w : world) :
  trace (run acts w) = trace w ++ acts.
Proof.
  revert w. induction acts as [|a acts IH]; intro w.
  - simpl. now rewrite app_nil_r.
  - change (run (a :: acts) w) with (run acts (perform w a)).
    rewrite IH, trace_perform, <- app_assoc. reflexivity.
Qed.

Lemma INT8U_of_small (z : Z) : 0 <= z < 256 -> INT8U_of z = z.
Proof. intro H. unfold INT8U_of. apply Z.mod_small. lia. Qed.

Lemma INT16U_of_small (z : Z) : 0 <= z < 65536 -> INT16U_of z = z.
Proof. intro H. unfold INT16U_of. apply Z.mod_small. lia. Qed.

Lemma INT8U_of_range (z : Z) : 0 <= INT8U_of z < 256.
Proof. unfold INT8U_of. apply Z.mod_pos_bound. lia. Qed.


Lemma load8_range (flash : Z -> Z) (a : Z) : 0 <= load8 flash a < 256.
Proof. apply INT8U_of_range. Qed.

Lemma load16_range (flash : Z -> Z) (a : Z) : 0 <= load16 flash a < 65536.
Proof.
  unfold load16.
  pose proof (load8_range flash a). pose proof (load8_range flash (a + 1)).
  lia.
Qed.

(** ** The emergency stop key *)

(** What the emergency stop branch leaves behind, on any memory image and
    from any state of the task: the task is in [RUNNING], and both shared
    variables hold what is read at address 0. *)
Lemma emergency_stop_effect (flash : Z -> Z) (ui : locals) (w : world) :
  let s := UITask_iter flash (key D_KEY) (ui, w) in
  currentstate (fst s) = RUNNING
  /\ spiMsg (snd s) = load16 flash 0
  /\ pwmrate (snd s) = load8 flash 0.
Proof.
  cbn -[load16 load8 INT16U_of INT8U_of Z.pow].
  repeat split.
  - apply INT16U_of_small, load16_range.
  - apply INT8U_of_small, load8_range.
Qed.

(** C1. The emergency stop key (a message of one byte holding [D_KEY]) leaves
    the task in [RUNNING], yet the command word and the duty cycle are not
    the constant 0: [setSpiData] and [setPwmRate] are handed the constant as
    the pointer and store what lies at address 0, here the low half
    [0xFFF8] and the low byte [0xF8] of the initial stack pointer. *)
Theorem emergency_stop_stores_memory_at_zero :
  forall (p : SETTING_STATE) (st : SYS_STATE) (wo np ns : Z),
    let ui := {| currentstate := st; currentplace := p; whichOutput := wo;
                 nextPWMRate := np; nextSpiMsg := ns |} in
    let s := UITask_iter vector_table (key D_KEY) (ui, initial_world) in
    currentstate (fst s) = RUNNING
    /\ spiMsg (snd s) = 0xFFF8 /\ spiMsg (snd s) <> EMERGENCY_STOP
    /\ pwmrate (snd s) = 0xF8 /\ pwmrate (snd s) <> 0.
Proof.
  intros p st wo np ns ui s.
  destruct (emergency_stop_effect vector_table ui initial_world)
    as (Hs & Hm & Hr).
  fold s in Hs, Hm, Hr. rewrite Hm, Hr.
  repeat split; try assumption; try reflexivity; vm_compute; discriminate.
Qed.

(** On an image that reads zero at addresses 0 and 1 the branch does store
    the emergency stop pattern and a zero duty cycle. *)
Lemma emergency_stop_on_zero_image (ui : locals) (w : world) :
  let s := UITask_iter zero_image (key D_KEY) (ui, w) in
  currentstate (fst s) = RUNNING
  /\ spiMsg (snd s) = EMERGENCY_STOP
  /\ pwmrate (snd s) = 0.
Proof.
  intro s.
  destruct (emergency_stop_effect zero_image ui w) as (Hs & Hm & Hr).
  fold s in Hs, Hm, Hr.
  split; [exact Hs|]. split; [rewrite Hm | rewrite Hr]; reflexivity.
Qed.

(** ** Words from the SPI service *)

Lemma spi_message_nonzero (flash : Z -> Z) (v : Z) (ui : locals) :
  v <> 0 ->
  UITask_step flash 2 v ui = (set_state FAULT ui, fault_banner v).
Proof.
  intro Hv. unfold UITask_step, spi_message, NO_FAULT. simpl (2 =? 1).
  simpl (2 =? 2). cbv iota.
  destruct (Z.eqb_spec v 0) as [E|_]; [contradiction|reflexivity].
Qed.

Lemma fault_name_one_hot (n : Z) (name : string) :
  In (n, name) channel_names -> fault_name (2 ^ (n - 1)) = name.
Proof.
  unfold channel_names. simpl.
  intros H; repeat (destruct H as [H|H]; [inversion H; reflexivity|]);
    contradiction.
Qed.

Lemma fault_name_other (v : Z) :
  (forall n, 1 <= n <= 8 -> v <> 2 ^ (n - 1)) ->
  fault_name v = MULIT_FAULT_MSG.
Proof.
  intro H. unfold fault_name.
  pose proof (H 1) as H1. pose proof (H 2) as H2. pose proof (H 3) as H3.
  pose proof (H 4) as H4. pose proof (H 5) as H5. pose proof (H 6) as H6.
  pose proof (H 7) as H7. pose proof (H 8) as H8.
  change (2 ^ (1 - 1)) with OUTPUT_ONE_MASK in H1.
  change (2 ^ (2 - 1)) with OUTPUT_TWO_MASK in H2.
  change (2 ^ (3 - 1)) with OUTPUT_THR_MASK in H3.
  change (2 ^ (4 - 1)) with OUTPUT_FOU_MASK in H4.
  change (2 ^ (5 - 1)) with OUTPUT_FIV_MASK in H5.
  change (2 ^ (6 - 1)) with OUTPUT_SIX_MASK in H6.
  change (2 ^ (7 - 1)) with OUTPUT_SEV_MASK in H7.
  change (2 ^ (8 - 1)) with OUTPUT_EGT_MASK in H8.
  repeat match goal with
         | |- context [?a =? ?b] =>
             destruct (Z.eqb_spec a b) as [E|_];
             [exfalso; revert E;
              first [apply H1|apply H2|apply H3|apply H4
                    |apply H5|apply H6|apply H7|apply H8]; lia|]
         end.
  reflexivity.
Qed.

(** C5. A message of two bytes with a nonzero value puts the task in [FAULT]
    whatever its state was, and the banner is "Fault: " followed by one
    name: the name of output [n] when the value is exactly the mask
    [2^(n-1)] of one of the eight outputs, and "Many" for every other
    value, a single bit above the eighth included. *)
Theorem nonzero_fault_word_banner (flash : Z -> Z) (v : Z) (ui : locals) :
  v <> 0 ->
  UITask_step flash 2 v ui = (set_state FAULT ui, fault_banner v)
  /\ currentstate (fst (UITask_step flash 2 v ui)) = FAULT
  /\ (forall n name, In (n, name) channel_names -> v = 2 ^ (n - 1) ->
        fault_name v = name)
  /\ ((forall n, 1 <= n <= 8 -> v <> 2 ^ (n - 1)) ->
        fault_name v = MULIT_FAULT_MSG).
Proof.
  intro Hv. rewrite (spi_message_nonzero flash v ui Hv).
  repeat split.
  - intros n name Hin ->. now apply fault_name_one_hot.
  - apply fault_name_other.
Qed.

Lemma nonzero_fault_word_banner_witness :
  64 <> 0
  /\ UITask_step vector_table 2 64 (UITask_entry 0 0 0)
     = (set_state FAULT (UITask_entry 0 0 0), fault_banner 64)
  /\ fault_name 64 = "OUT7"%string.
Proof.
  assert (H : 64 <> 0) by lia.
  destruct (nonzero_fault_word_banner vector_table 64 (UITask_entry 0 0 0) H)
    as (Hstep & _ & Hone & _).
  split; [exact H|]. split; [exact Hstep|].
  apply (Hone 7); [simpl; tauto | reflexivity].
Defined.

(** Values that set one bit, or several, outside the table. *)
Example fault_name_bit8 : fault_name 256 = "Many"%string.
Proof. reflexivity. Qed.

Example fault_name_two_bits : fault_name 3 = "Many"%string.
Proof. reflexivity. Qed.

(** A zero word while the task is in [FAULT] returns it to [RUNNING] and
    swaps the layers back. *)
Lemma zero_fault_word_in_FAULT (flash : Z -> Z) (p : SETTING_STATE)
      (wo np ns : Z) :
  UITask_step flash 2 NO_FAULT
    {| currentstate := FAULT; currentplace := p; whichOutput := wo;
       nextPWMRate := np; nextSpiMsg := ns |}
  = ({| currentstate := RUNNING; currentplace := p; whichOutput := wo;
        nextPWMRate := np; nextSpiMsg := ns |},
     [Lcd (LcdHideLayer FAULT_LAYER); Lcd (LcdShowLayer UI_LAYER)]).
Proof. reflexivity. Qed.

(** C3. A zero word while the task is in [RUNNING] is not skipped: the test
    for "no fault" also asks for [currentstate == FAULT], so the word takes
    the fault branch, the status layer is hidden, "Fault: Many" is shown and
    the task enters [FAULT]; a second zero word brings it back, a third
    raises the banner again. *)
Theorem zero_fault_word_in_RUNNING_raises_fault :
  forall (flash : Z -> Z) (p : SETTING_STATE) (wo np ns : Z),
    let ui := {| currentstate := RUNNING; currentplace := p;
                 whichOutput := wo; nextPWMRate := np; nextSpiMsg := ns |} in
    UITask_step flash 2 NO_FAULT ui
    = (set_state FAULT ui,
       [Lcd (LcdHideLayer UI_LAYER);
        Lcd (LcdDispString 1 1 FAULT_LAYER "Fault: ");
        Lcd (LcdDispString 1 8 FAULT_LAYER "Many");
        Lcd (LcdShowLayer FAULT_LAYER)])
    /\ UITask_step flash 2 NO_FAULT ui <> (ui, [])
    /\ map (fun s => currentstate (fst s))
           [UITask_loop flash [spi 0] (ui, initial_world);
            UITask_loop flash [spi 0; spi 0] (ui, initial_world);
            UITask_loop flash [spi 0; spi 0; spi 0] (ui, initial_world)]
       = [FAULT; RUNNING; FAULT].
Proof.
  intros flash p wo np ns ui.
  split; [reflexivity|]. split; [|reflexivity].
  intro H. discriminate H.
Qed.

(** ** The duty cycle accumulator *)

Lemma quot_tens (t o : Z) :
  0 <= t -> 0 <= o <= 9 -> Z.quot (t * 10 + o) 10 = t.
Proof.
  intros Ht Ho. rewrite Z.quot_div_nonneg by lia.
  symmetry. apply (Z.div_unique (t * 10 + o) 10 t o); lia.
Qed.

Lemma is_digit_key_true (k : Z) :
  ZERO_KEY <= k <= NIN_KEY -> is_digit_key k = true.
Proof.
  intros [H1 H2]. unfold is_digit_key.
  apply andb_true_intro. split; apply Z.leb_le; assumption.
Qed.

Lemma digit_key_not_D (k : Z) : ZERO_KEY <= k <= NIN_KEY -> (k =? D_KEY) = false.
Proof. unfold ZERO_KEY, NIN_KEY, D_KEY. intro H. apply Z.eqb_neq. lia. Qed.

(** A digit key in [TENS]: the tens digit is replaced, the ones digit kept,
    the cursor moves to the ones place. *)
Lemma adjust_tens_digit (flash : Z -> Z) (t o k wo ns : Z) :
  0 <= t <= 9 -> 0 <= o <= 9 -> ZERO_KEY <= k <= NIN_KEY ->
  UITask_step flash 1 k
    {| currentstate := ADJUST; currentplace := TENS; whichOutput := wo;
       nextPWMRate := t * 10 + o; nextSpiMsg := ns |}
  = ({| currentstate := ADJUST; currentplace := ONES; whichOutput := wo;
        nextPWMRate := (k - NUMBER_KEY_TO_DEC_FACTOR) * 10 + o;
        nextSpiMsg := ns |},
     [Lcd (LcdDispDecByte UI_ROW UI_PWM_WRITE UI_LAYER
             ((k - NUMBER_KEY_TO_DEC_FACTOR) * 10 + o) 0);
      Lcd (LcdCursor UI_ROW UI_PWM_ONES UI_LAYER CURSOR_ON CURSOR_BLINK);
      Lcd (LcdShowLayer UI_LAYER)]).
Proof.
  intros Ht Ho Hk. unfold UITask_step. simpl (1 =? 1). cbv iota.
  rewrite (digit_key_not_D k Hk). cbv iota beta.
  cbn [currentstate currentplace]. unfold adjust_tens.
  rewrite (is_digit_key_true k Hk). cbv iota zeta.
  unfold set_place, set_rate.
  cbn [nextPWMRate currentstate currentplace whichOutput nextSpiMsg].
  rewrite quot_tens by lia.
  replace (10 * (k - NUMBER_KEY_TO_DEC_FACTOR) + (t * 10 + o - 10 * t))
    with ((k - NUMBER_KEY_TO_DEC_FACTOR) * 10 + o) by lia.
  rewrite INT8U_of_small; [reflexivity|].
  unfold ZERO_KEY, NIN_KEY in Hk. unfold NUMBER_KEY_TO_DEC_FACTOR. lia.
Qed.

(** A digit key in [ONES]: the ones digit is replaced, the tens digit kept,
    the cursor stays. *)
Lemma adjust_ones_digit (flash : Z -> Z) (t o k wo ns : Z) :
  0 <= t <= 9 -> 0 <= o <= 9 -> ZERO_KEY <= k <= NIN_KEY ->
  UITask_step flash 1 k
    {| currentstate := ADJUST; currentplace := ONES; whichOutput := wo;
       nextPWMRate := t * 10 + o; nextSpiMsg := ns |}
  = ({| currentstate := ADJUST; currentplace := ONES; whichOutput := wo;
        nextPWMRate := t * 10 + (k - NUMBER_KEY_TO_DEC_FACTOR);
        nextSpiMsg := ns |},
     [Lcd (LcdDispDecByte UI_ROW UI_PWM_WRITE UI_LAYER
             (t * 10 + (k - NUMBER_KEY_TO_DEC_FACTOR)) 0);
      Lcd (LcdCursor UI_ROW UI_PWM_ONES UI_LAYER CURSOR_ON CURSOR_BLINK)]).
Proof.
  intros Ht Ho Hk. unfold UITask_step. simpl (1 =? 1). cbv iota.
  rewrite (digit_key_not_D k Hk). cbv iota beta.
  cbn [currentstate currentplace]. unfold adjust_ones.
  rewrite (is_digit_key_true k Hk). cbv iota zeta.
  unfold set_place, set_rate.
  cbn [nextPWMRate currentstate currentplace whichOutput nextSpiMsg].
  rewrite quot_tens by lia.
  replace (k - NUMBER_KEY_TO_DEC_FACTOR + 10 * t)
    with (t * 10 + (k - NUMBER_KEY_TO_DEC_FACTOR)) by lia.
  rewrite INT8U_of_small; [reflexivity|].
  unfold ZERO_KEY, NIN_KEY in Hk. unfold NUMBER_KEY_TO_DEC_FACTOR. lia.
Qed.

(** The back key in [ONES] returns to [TENS] and keeps the accumulator. *)
Lemma adjust_ones_back (flash : Z -> Z) (r wo ns : Z) :
  UITask_step flash 1 B_KEY
    {| currentstate := ADJUST; currentplace := ONES; whichOutput := wo;
       nextPWMRate := r; nextSpiMsg := ns |}
  = ({| currentstate := ADJUST; currentplace := TENS; whichOutput := wo;
        nextPWMRate := r; nextSpiMsg := ns |},
     [Lcd (LcdCursor UI_ROW UI_PWM_TENS UI_LAYER CURSOR_ON CURSOR_BLINK)]).
Proof. reflexivity. Qed.

(** The back key in [TENS] returns to [OUT] and clears the accumulator. *)
Lemma adjust_tens_back (flash : Z -> Z) (r wo ns : Z) :
  UITask_step flash 1 B_KEY
    {| currentstate := ADJUST; currentplace := TENS; whichOutput := wo;
       nextPWMRate := r; nextSpiMsg := ns |}
  = ({| currentstate := ADJUST; currentplace := OUT; whichOutput := wo;
        nextPWMRate := 0; nextSpiMsg := ns |},
     [Lcd (LcdCursor UI_ROW UI_OUT_COL UI_LAYER CURSOR_ON CURSOR_BLINK)]).
Proof. reflexivity. Qed.

(** C7. With the accumulator at [t*10+o] (two decimal digits): a digit key
    [d] in [TENS] gives [d*10+o] and moves to [ONES]; a digit key [d] in
    [ONES] gives [t*10+d]; the back key in [ONES] moves to [TENS] with
    [t*10+o] untouched; the back key in [TENS] moves to [OUT] with the
    accumulator at 0.  The chosen output and its command word are kept
    throughout. *)
Theorem accumulator_digits_independent
        (flash : Z -> Z) (t o k wo ns : Z) :
  0 <= t <= 9 -> 0 <= o <= 9 -> ZERO_KEY <= k <= NIN_KEY ->
  let d := k - NUMBER_KEY_TO_DEC_FACTOR in
  let at_place p r :=
    {| currentstate := ADJUST; currentplace := p; whichOutput := wo;
       nextPWMRate := r; nextSpiMsg := ns |} in
  0 <= d <= 9
  /\ fst (UITask_step flash 1 k (at_place TENS (t * 10 + o)))
     = at_place ONES (d * 10 + o)
  /\ fst (UITask_step flash 1 k (at_place ONES (t * 10 + o)))
     = at_place ONES (t * 10 + d)
  /\ fst (UITask_step flash 1 B_KEY (at_place ONES (t * 10 + o)))
     = at_place TENS (t * 10 + o)
  /\ fst (UITask_step flash 1 B_KEY (at_place TENS (t * 10 + o)))
     = at_place OUT 0.
Proof.
  intros Ht Ho Hk d at_place. subst d at_place. cbv beta.
  rewrite adjust_tens_digit, adjust_ones_digit by assumption.
  rewrite adjust_ones_back, adjust_tens_back.
  repeat split; unfold ZERO_KEY, NIN_KEY, NUMBER_KEY_TO_DEC_FACTOR in *; lia.
Qed.

Lemma accumulator_digits_independent_witness :
  let at_place p r :=
    {| currentstate := ADJUST; currentplace := p; whichOutput := 4;
       nextPWMRate := r; nextSpiMsg := 1 |} in
  0 <= 3 <= 9 /\ 0 <= 5 <= 9 /\ ZERO_KEY <= SEV_KEY <= NIN_KEY
  /\ fst (UITask_step vector_table 1 SEV_KEY (at_place TENS 35))
     = at_place ONES 75
  /\ fst (UITask_step vector_table 1 SEV_KEY (at_place ONES 35))
     = at_place ONES 37
  /\ fst (UITask_step vector_table 1 B_KEY (at_place ONES 35))
     = at_place TENS 35
  /\ fst (UITask_step vector_table 1 B_KEY (at_place TENS 35))
     = at_place OUT 0.
Proof.
  intro at_place.
  assert (Ht : 0 <= 3 <= 9) by lia.
  assert (Ho : 0 <= 5 <= 9) by lia.
  assert (Hk : ZERO_KEY <= SEV_KEY <= NIN_KEY)
    by (unfold ZERO_KEY, SEV_KEY, NIN_KEY; lia).
  destruct (accumulator_digits_independent vector_table 3 5 SEV_KEY 4 1
              Ht Ho Hk) as (_ & H1 & H2 & H3 & H4).
  repeat split; try lia; try exact (proj1 Hk); try exact (proj2 Hk);
    assumption.
Defined.

(** ** Selecting the output *)

Lemma adjust_out_FOUR (flash : Z -> Z) (wo np ns : Z) :
  UITask_step flash 1 FOUR_KEY
    {| currentstate := ADJUST; currentplace := OUT; whichOutput := wo;
       nextPWMRate := np; nextSpiMsg := ns |}
  = ({| currentstate := ADJUST; currentplace := TENS; whichOutput := 4;
        nextPWMRate := np; nextSpiMsg := OUTPUT_ONE_MASK |},
     [Lcd (LcdDispString UI_ROW UI_OUT_COL UI_LAYER OUT_FOU_MSG);
      Lcd (LcdDispString UI_ROW UI_PWM_MSG_COL UI_LAYER PWM_MSG);
      Lcd (LcdCursor UI_ROW UI_PWM_TENS UI_LAYER CURSOR_ON CURSOR_BLINK);
      Lcd (LcdShowLayer UI_LAYER)]).
Proof. reflexivity. Qed.

Lemma adjust_out_SEV (flash : Z -> Z) (wo np ns : Z) :
  UITask_step flash 1 SEV_KEY
    {| currentstate := ADJUST; currentplace := OUT; whichOutput := wo;
       nextPWMRate := np; nextSpiMsg := ns |}
  = ({| currentstate := ADJUST; currentplace := TENS; whichOutput := 7;
        nextPWMRate := np; nextSpiMsg := OUTPUT_THR_MASK |},
     [Lcd (LcdDispString UI_ROW UI_OUT_COL UI_LAYER OUT_SEV_MSG);
      Lcd (LcdDispString UI_ROW UI_PWM_MSG_COL UI_LAYER PWM_MSG);
      Lcd (LcdCursor UI_ROW UI_PWM_TENS UI_LAYER CURSOR_ON CURSOR_BLINK);
      Lcd (LcdShowLayer UI_LAYER)]).
Proof. reflexivity. Qed.

(** C8, as stated: in [ADJUST]/[OUT] every key other than [FOUR_KEY] and
    [SEV_KEY] changes nothing.  The emergency stop key is such a key, and it
    is served before the state is looked at. *)
Lemma select_output_ignores_all_but_4_and_7_fails :
  ~ (forall (flash : Z -> Z) (k : Z) (ui : locals),
        currentstate ui = ADJUST -> currentplace ui = OUT ->
        k <> FOUR_KEY -> k <> SEV_KEY ->
        UITask_step flash 1 k ui = (ui, [])).
Proof.
  intro H.
  specialize (H vector_table D_KEY
                {| currentstate := ADJUST; currentplace := OUT;
                   whichOutput := 0; nextPWMRate := 0; nextSpiMsg := 0 |}
                eq_refl eq_refl).
  assert (H4 : D_KEY <> FOUR_KEY) by (intro E; discriminate E).
  assert (H7 : D_KEY <> SEV_KEY) by (intro E; discriminate E).
  specialize (H H4 H7). discriminate H.
Qed.

(** C8, amended: in [ADJUST]/[OUT], [FOUR_KEY] records output 4 and
    [SEV_KEY] records output 7, both moving to [TENS]; every key other than
    these two and the emergency stop key [D_KEY] leaves the locals as they
    are and performs no action, so no LCD call either.  The keys 1, 2, 3, 5,
    6 and 8 are among the ignored ones, and after any key but [D_KEY] the
    recorded output is the old one, 4 or 7. *)
Theorem select_output_only_4_and_7 (flash : Z -> Z) (k : Z) (ui : locals) :
  currentstate ui = ADJUST -> currentplace ui = OUT -> k <> D_KEY ->
  (k <> FOUR_KEY -> k <> SEV_KEY -> UITask_step flash 1 k ui = (ui, []))
  /\ (k = FOUR_KEY ->
      fst (UITask_step flash 1 k ui)
      = {| currentstate := ADJUST; currentplace := TENS; whichOutput := 4;
           nextPWMRate := nextPWMRate ui; nextSpiMsg := OUTPUT_ONE_MASK |})
  /\ (k = SEV_KEY ->
      fst (UITask_step flash 1 k ui)
      = {| currentstate := ADJUST; currentplace := TENS; whichOutput := 7;
           nextPWMRate := nextPWMRate ui; nextSpiMsg := OUTPUT_THR_MASK |})
  /\ (In k [ONE_KEY; TWO_KEY; THR_KEY; FIV_KEY; SIX_KEY; EGT_KEY] ->
      UITask_step flash 1 k ui = (ui, []))
  /\ In (whichOutput (fst (UITask_step flash 1 k ui)))
        [whichOutput ui; 4; 7].
Proof.
  destruct ui as [st pl wo np ns]. cbn [currentstate currentplace].
  intros -> -> HD.
  assert (Hother : k <> FOUR_KEY -> k <> SEV_KEY ->
                   UITask_step flash 1 k
                     {| currentstate := ADJUST; currentplace := OUT;
                        whichOutput := wo; nextPWMRate := np;
                        nextSpiMsg := ns |}
                   = ({| currentstate := ADJUST; currentplace := OUT;
                         whichOutput := wo; nextPWMRate := np;
                         nextSpiMsg := ns |}, [])).
  { intros H4 H7. unfold UITask_step. simpl (1 =? 1). cbv iota.
    apply Z.eqb_neq in HD, H4, H7. rewrite HD. cbv iota.
    cbn [currentstate currentplace]. unfold adjust_out.
    rewrite H4, H7. reflexivity. }
  split; [exact Hother|].
  split; [intros ->; rewrite adjust_out_FOUR; reflexivity|].
  split; [intros ->; rewrite adjust_out_SEV; reflexivity|].
  split.
  - intro Hin. apply Hother;
      simpl in Hin; intuition (subst k; discriminate).
  - destruct (Z.eq_dec k FOUR_KEY) as [->|H4].
    { rewrite adjust_out_FOUR. simpl. tauto. }
    destruct (Z.eq_dec k SEV_KEY) as [->|H7].
    { rewrite adjust_out_SEV. simpl. tauto. }
    rewrite (Hother H4 H7). simpl. tauto.
Qed.

Lemma select_output_only_4_and_7_witness :
  let ui := {| currentstate := ADJUST; currentplace := OUT; whichOutput := 0;
               nextPWMRate := 0; nextSpiMsg := 0 |} in
  currentstate ui = ADJUST /\ currentplace ui = OUT /\ FIV_KEY <> D_KEY
  /\ UITask_step vector_table 1 FIV_KEY ui = (ui, []).
Proof.
  intro ui.
  assert (HD : FIV_KEY <> D_KEY) by (unfold FIV_KEY, D_KEY; lia).
  destruct (select_output_only_4_and_7 vector_table FIV_KEY ui
              eq_refl eq_refl HD) as (_ & _ & _ & H & _).
  split; [reflexivity|]. split; [reflexivity|]. split; [exact HD|].
  apply H. simpl. tauto.
Defined.

(** ** Which actions change a shared variable *)

Lemma perform_keeps (c : cell) (a : action) (w : world) :
  writes c a = false -> value_of c (perform w a) = value_of c w.
Proof.
  destruct a as [o|o|o|o|c' v|c'|call]; try (intros _; destruct c; reflexivity).
  destruct c, c'; simpl; intro H; try discriminate H; reflexivity.
Qed.

Lemma run_keeps (c : cell) (acts : list action) (w : world) :
  forallb (fun a => negb (writes c a)) acts = true ->
  value_of c (run acts w) = value_of c w.
Proof.
  revert w. induction acts as [|a acts IH]; intros w H; [reflexivity|].
  simpl in H. apply andb_prop in H. destruct H as [Ha Hacts].
  change (run (a :: acts) w) with (run acts (perform w a)).
  rewrite IH by exact Hacts. apply perform_keeps.
  now apply negb_true_iff.
Qed.

Lemma status_bar_lcd_only (c : cell) (ui : locals) :
  forallb (fun a => negb (writes c a)) (status_bar ui) = true.
Proof.
  unfold status_bar.
  destruct (whichOutput ui =? 4); [reflexivity|].
  destruct (whichOutput ui =? 7); reflexivity.
Qed.

(** ** A committed episode *)

Lemma UITask_loop_cons (flash : Z -> Z) (m : Z * Z) (ms : list (Z * Z))
      (s : locals * world) :
  UITask_loop flash (m :: ms) s = UITask_loop flash ms (UITask_iter flash m s).
Proof. reflexivity. Qed.

Lemma UITask_iter_key (flash : Z -> Z) (k : Z) (ui ui' : locals)
      (acts : list action) (w : world) :
  UITask_step flash 1 k ui = (ui', acts) ->
  UITask_iter flash (key k) (ui, w) = (ui', run acts w).
Proof.
  intro H. unfold UITask_iter, key. cbn [fst snd]. now rewrite H.
Qed.

Lemma running_select (flash : Z -> Z) (p : SETTING_STATE) (wo np ns : Z) :
  UITask_step flash 1 A_KEY
    {| currentstate := RUNNING; currentplace := p; whichOutput := wo;
       nextPWMRate := np; nextSpiMsg := ns |}
  = ({| currentstate := ADJUST; currentplace := OUT; whichOutput := 0;
        nextPWMRate := 0; nextSpiMsg := 0 |},
     [Lcd (LcdDispString UI_ROW FIRST_COL UI_LAYER SET_MSG);
      Lcd (LcdCursor UI_ROW UI_OUT_COL UI_LAYER CURSOR_ON CURSOR_BLINK)]).
Proof. reflexivity. Qed.

Lemma adjust_ones_accept (flash : Z -> Z) (r wo ns : Z) :
  let ui := {| currentstate := ADJUST; currentplace := ONES;
               whichOutput := wo; nextPWMRate := r; nextSpiMsg := ns |} in
  UITask_step flash 1 A_KEY ui = (set_state RUNNING ui, commit flash ui).
Proof. reflexivity. Qed.

(** X19. The keys select, channel, tens digit, ones digit, accept, from
    [RUNNING]: the locals at the accept key, and what the accept key does to
    the shared variables. *)
Lemma committed_episode (flash : Z -> Z) (sel kt ko : Z)
      (p : SETTING_STATE) (wo np ns : Z) (w : world) :
  sel = FOUR_KEY \/ sel = SEV_KEY ->
  ZERO_KEY <= kt <= NIN_KEY -> ZERO_KEY <= ko <= NIN_KEY ->
  let duty := (kt - NUMBER_KEY_TO_DEC_FACTOR) * 10
              + (ko - NUMBER_KEY_TO_DEC_FACTOR) in
  let start := {| currentstate := RUNNING; currentplace := p;
                  whichOutput := wo; nextPWMRate := np; nextSpiMsg := ns |} in
  let entered := {| currentstate := ADJUST; currentplace := ONES;
                    whichOutput := recorded_output sel; nextPWMRate := duty;
                    nextSpiMsg := recorded_word sel |} in
  let before :=
    UITask_loop flash [key A_KEY; key sel; key kt; key ko] (start, w) in
  let after :=
    UITask_loop flash [key A_KEY; key sel; key kt; key ko; key A_KEY]
      (start, w) in
  fst before = entered
  /\ spiMsg (snd before) = spiMsg w /\ pwmrate (snd before) = pwmrate w
  /\ after = (set_state RUNNING entered, run (commit flash entered) (snd before))
  /\ (duty = 0 ->
      spiMsg (snd after) = recorded_word sel
      /\ pwmrate (snd after) = pwmrate w
      /\ trace (snd after)
         = trace (snd before)
           ++ setSpiData flash (AddressOf (recorded_word sel))
           ++ status_bar entered)
  /\ (duty <> 0 ->
      spiMsg (snd after) = load16 flash 0
      /\ pwmrate (snd after) = duty
      /\ trace (snd after)
         = trace (snd before)
           ++ setSpiData flash (Absolute EMERGENCY_STOP)
           ++ setPwmRate flash (AddressOf duty)
           ++ status_bar entered).
Proof.
  intros Hsel Hkt Hko duty start entered before after.
  assert (Hd : 0 <= kt - NUMBER_KEY_TO_DEC_FACTOR <= 9
               /\ 0 <= ko - NUMBER_KEY_TO_DEC_FACTOR <= 9)
    by (unfold ZERO_KEY, NIN_KEY, NUMBER_KEY_TO_DEC_FACTOR in *; lia).
  destruct Hd as [Hdt Hdo].
  assert (Hbefore :
            exists lcd, forallb (fun a => match a with Lcd _ => true
                                               | _ => false end) lcd = true
                        /\ before = (entered, run lcd w)).
  { subst before start entered.
    rewrite !UITask_loop_cons.
    rewrite (UITask_iter_key _ _ _ _ _ _ (running_select flash p wo np ns)).
    pose proof (adjust_tens_digit flash 0 0 kt (recorded_output sel)
                  (recorded_word sel)) as Ht.
    pose proof (adjust_ones_digit flash (kt - NUMBER_KEY_TO_DEC_FACTOR) 0 ko
                  (recorded_output sel) (recorded_word sel)) as Ho.
    change (0 * 10 + 0) with 0 in Ht.
    rewrite Z.add_0_r in Ht, Ho.
    specialize (Ht ltac:(lia) ltac:(lia) Hkt).
    specialize (Ho Hdt ltac:(lia) Hko).
    destruct Hsel as [-> | ->].
    - rewrite (UITask_iter_key _ _ _ _ _ _ (adjust_out_FOUR flash 0 0 0)).
      change 4 with (recorded_output FOUR_KEY) at 1.
      change OUTPUT_ONE_MASK with (recorded_word FOUR_KEY) at 1.
      rewrite (UITask_iter_key _ _ _ _ _ _ Ht).
      rewrite (UITask_iter_key _ _ _ _ _ _ Ho).
      cbn [UITask_loop fold_left]. rewrite <- !run_app.
      eexists. split; [|subst duty; reflexivity]. reflexivity.
    - rewrite (UITask_iter_key _ _ _ _ _ _ (adjust_out_SEV flash 0 0 0)).
      change 7 with (recorded_output SEV_KEY) at 1.
      change OUTPUT_THR_MASK with (recorded_word SEV_KEY) at 1.
      rewrite (UITask_iter_key _ _ _ _ _ _ Ht).
      rewrite (UITask_iter_key _ _ _ _ _ _ Ho).
      cbn [UITask_loop fold_left]. rewrite <- !run_app.
      eexists. split; [|subst duty; reflexivity]. reflexivity. }
  destruct Hbefore as (lcd & Hlcd & Hbefore).
  assert (Hkeep : forall c, value_of c (run lcd w) = value_of c w).
  { intro c. apply run_keeps. clear - Hlcd.
    induction lcd as [|a lcd IH]; [reflexivity|].
    simpl in Hlcd. apply andb_prop in Hlcd. destruct Hlcd as [Ha Hl].
    simpl. rewrite (IH Hl). destruct a; try discriminate Ha. reflexivity. }
  assert (Hafter : after = (set_state RUNNING entered,
                            run (commit flash entered) (snd before))).
  { subst after.
    change [key A_KEY; key sel; key kt; key ko; key A_KEY]
      with ([key A_KEY; key sel; key kt; key ko] ++ [key A_KEY]).
    unfold UITask_loop at 1. rewrite fold_left_app.
    fold (UITask_loop flash [key A_KEY; key sel; key kt; key ko] (start, w)).
    fold before. rewrite Hbefore. cbn [fold_left snd].
    apply UITask_iter_key. apply adjust_ones_accept. }
  split; [rewrite Hbefore; reflexivity|].
  split; [rewrite Hbefore; exact (Hkeep c_spiMsg)|].
  split; [rewrite Hbefore; exact (Hkeep c_pwmrate)|].
  split; [exact Hafter|].
  assert (Hrw : 0 <= recorded_word sel < 65536)
    by (destruct Hsel as [-> | ->]; vm_compute; split; congruence).
  split; intro Hduty; rewrite Hafter; cbn [snd]; unfold commit;
    change (nextPWMRate entered) with duty;
    change (nextSpiMsg entered) with (recorded_word sel).
  - rewrite Hduty. simpl (0 =? 0). cbv iota.
    rewrite run_app. repeat split.
    + change (spiMsg ?x) with (value_of c_spiMsg x).
      rewrite run_keeps by apply status_bar_lcd_only.
      cbn -[INT16U_of]. now apply INT16U_of_small.
    + change (pwmrate ?x) with (value_of c_pwmrate x).
      rewrite run_keeps by apply status_bar_lcd_only.
      rewrite run_keeps by reflexivity.
      rewrite Hbefore. exact (Hkeep c_pwmrate).
    + rewrite <- run_app, trace_run. reflexivity.
  - destruct (Z.eqb_spec duty 0) as [E|_]; [contradiction|].
    rewrite run_app. repeat split.
    + change (spiMsg ?x) with (value_of c_spiMsg x).
      rewrite run_keeps by apply status_bar_lcd_only.
      cbn -[INT16U_of load16]. apply INT16U_of_small, load16_range.
    + change (pwmrate ?x) with (value_of c_pwmrate x).
      rewrite run_keeps by apply status_bar_lcd_only.
      cbn -[INT8U_of]. apply INT8U_of_small. subst duty. lia.
    + rewrite <- run_app, trace_run, <- app_assoc. reflexivity.
Qed.

(** C2. The five keys select, channel, "0", "0", accept store the word the
    channel key recorded, and no duty cycle: for output 4 that word is
    [OUTPUT_ONE_MASK] and for output 7 it is [OUTPUT_THR_MASK], neither of
    which is the mask of the output that was chosen and that the status bar
    names.  With a nonzero duty cycle (here "0", "7") the duty cycle is
    stored after the command word, and the command word is what lies at
    address 0, not the emergency stop pattern. *)
Theorem committed_episode_command_word :
  forall (flash : Z -> Z) (wo np ns : Z),
    let start := (UITask_entry wo np ns, initial_world) in
    let full4 :=
      UITask_loop flash
        (map key [A_KEY; FOUR_KEY; ZERO_KEY; ZERO_KEY; A_KEY]) start in
    let full7 :=
      UITask_loop flash
        (map key [A_KEY; SEV_KEY; ZERO_KEY; ZERO_KEY; A_KEY]) start in
    let pwm4 :=
      UITask_loop vector_table
        (map key [A_KEY; FOUR_KEY; ZERO_KEY; SEV_KEY; A_KEY]) start in
    (whichOutput (fst full4) = 4
     /\ spiMsg (snd full4) = OUTPUT_ONE_MASK
     /\ spiMsg (snd full4) <> OUTPUT_FOU_MASK
     /\ In (Lcd (LcdDispString 1 1 UI_LAYER "OUT4")) (trace (snd full4))
     /\ pwmrate (snd full4) = 0)
    /\ (whichOutput (fst full7) = 7
        /\ spiMsg (snd full7) = OUTPUT_THR_MASK
        /\ spiMsg (snd full7) <> OUTPUT_SEV_MASK
        /\ In (Lcd (LcdDispString 1 1 UI_LAYER "OUT7")) (trace (snd full7))
        /\ pwmrate (snd full7) = 0)
    /\ (spiMsg (snd pwm4) = 0xFFF8
        /\ spiMsg (snd pwm4) <> EMERGENCY_STOP
        /\ pwmrate (snd pwm4) = 7).
Proof.
  intros flash wo np ns start full4 full7 pwm4.
  split; [|split].
  - repeat split; try reflexivity.
    + intro H; discriminate H.
    + vm_compute. tauto.
  - repeat split; try reflexivity.
    + intro H; discriminate H.
    + vm_compute. tauto.
  - assert (H : spiMsg (snd pwm4) = 0xFFF8 /\ pwmrate (snd pwm4) = 7)
      by (split; vm_compute; reflexivity).
    destruct H as [Hm Hr]. rewrite Hm, Hr.
    repeat split. intro H; discriminate H.
Qed.

(** ** The range of the duty cycle *)

Lemma tens_digit_range (k r : Z) :
  is_digit_key k = true -> 0 <= r <= 99 ->
  0 <= INT8U_of (10 * (k - NUMBER_KEY_TO_DEC_FACTOR)
                 + (r - 10 * Z.quot r 10)) <= 99.
Proof.
  unfold is_digit_key, ZERO_KEY, NIN_KEY, NUMBER_KEY_TO_DEC_FACTOR.
  intros Hk Hr. apply andb_prop in Hk. destruct Hk as [H1 H2].
  apply Z.leb_le in H1, H2.
  rewrite Z.quot_div_nonneg by lia.
  pose proof (Z.mod_pos_bound r 10 ltac:(lia)) as Hm.
  rewrite Z.mod_eq in Hm by lia.
  rewrite INT8U_of_small; lia.
Qed.

Lemma ones_digit_range (k r : Z) :
  is_digit_key k = true -> 0 <= r <= 99 ->
  0 <= INT8U_of ((k - NUMBER_KEY_TO_DEC_FACTOR) + 10 * Z.quot r 10) <= 99.
Proof.
  unfold is_digit_key, ZERO_KEY, NIN_KEY, NUMBER_KEY_TO_DEC_FACTOR.
  intros Hk Hr. apply andb_prop in Hk. destruct Hk as [H1 H2].
  apply Z.leb_le in H1, H2.
  rewrite Z.quot_div_nonneg by lia.
  assert (0 <= r / 10 <= 9).
  { split; [apply Z.div_pos; lia|].
    apply Z.lt_succ_r. apply Z.div_lt_upper_bound; lia. }
  rewrite INT8U_of_small; lia.
Qed.

(** Every iteration keeps the duty cycle within 0..99, provided the byte at
    address 0, which the emergency stop branch copies into [pwmrate], is
    itself within that range. *)
Lemma UITask_iter_keeps_range (flash : Z -> Z) (msg : Z * Z)
      (s : locals * world) :
  load8 flash 0 <= 99 ->
  duty_in_range s -> duty_in_range (UITask_iter flash msg s).
Proof.
  intros Hflash [Hrate Hacc].
  destruct s as [[st pl wo np ns] w], msg as [sz v].
  cbn [fst snd currentstate nextPWMRate] in Hrate, Hacc.
  unfold duty_in_range, UITask_iter, UITask_step. cbn [fst snd].
  destruct (sz =? 1).
  - destruct (v =? D_KEY).
    + unfold emergency_stop. change (INT8U_of EMERGENCY_STOP) with 0.
      cbn -[INT8U_of INT16U_of load8 load16]. split; [|discriminate].
      rewrite INT8U_of_small by apply load8_range.
      pose proof (load8_range flash 0). lia.
    + destruct st; cbn [currentstate currentplace].
      * unfold running_key. destruct (v =? A_KEY); cbn; [|split; [lia|discriminate]].
        split; [lia|]. intros _. lia.
      * specialize (Hacc eq_refl).
        destruct pl.
        -- unfold adjust_out.
           destruct (v =? FOUR_KEY); [cbn; split; [lia|intros _; lia]|].
           destruct (v =? SEV_KEY); cbn; split; try lia; intros _; lia.
        -- unfold adjust_tens. destruct (is_digit_key v) eqn:Hd.
           ++ cbn -[INT8U_of Z.quot Z.mul Z.add Z.sub].
              split; [lia|]. intros _. now apply tens_digit_range.
           ++ destruct (v =? B_KEY); cbn; split; try lia; intros _; lia.
        -- unfold adjust_ones. destruct (is_digit_key v) eqn:Hd.
           ++ cbn -[INT8U_of Z.quot Z.mul Z.add Z.sub].
              split; [lia|]. intros _. now apply ones_digit_range.
           ++ destruct (v =? B_KEY); [cbn; split; [lia|intros _; lia]|].
              destruct (v =? A_KEY); [|cbn; split; [lia|intros _; lia]].
              cbn [fst snd set_state currentstate nextPWMRate nextSpiMsg].
              split; [|discriminate].
              rewrite run_app.
              change (pwmrate ?x) with (value_of c_pwmrate x).
              rewrite run_keeps by apply status_bar_lcd_only.
              destruct (np =? 0).
              ** rewrite run_keeps by reflexivity. exact Hrate.
              ** cbn -[INT8U_of INT16U_of load16].
                 rewrite INT8U_of_small; lia.
      * cbn. split; [lia|discriminate].
  - destruct (sz =? 2); [|cbn; split; [lia|exact Hacc]].
    unfold spi_message. cbn [currentstate].
    destruct (v =? NO_FAULT), st; cbn; (split; [lia|discriminate]).
Qed.

Lemma UITask_loop_keeps_range (flash : Z -> Z) (msgs : list (Z * Z))
      (s : locals * world) :
  load8 flash 0 <= 99 ->
  duty_in_range s -> duty_in_range (UITask_loop flash msgs s).
Proof.
  intro Hflash. revert s.
  induction msgs as [|m msgs IH]; intros s Hs; [exact Hs|].
  rewrite UITask_loop_cons. apply IH.
  now apply UITask_iter_keeps_range.
Qed.

(** X20. From start-up, with a byte within 0..99 at address 0, [pwmrate]
    stays within 0..99 under every sequence of messages. *)
Lemma pwmrate_range_when_byte_zero_small (flash : Z -> Z)
      (msgs : list (Z * Z)) (wo np ns : Z) :
  load8 flash 0 <= 99 ->
  0 <= pwmrate (snd (UITask_loop flash msgs
                       (UITask_entry wo np ns, initial_world))) <= 99.
Proof.
  intro Hflash.
  apply (UITask_loop_keeps_range flash msgs _ Hflash).
  split; cbn; [lia|discriminate].
Qed.

(** X21. Whatever the memory image, the value handed to [setPwmRate] by the
    accept key is within 0..99. *)
Lemma accepted_rate_in_range (flash : Z -> Z) (msgs : list (Z * Z))
      (wo np ns : Z) :
  let s := UITask_loop flash msgs (UITask_entry wo np ns, initial_world) in
  currentstate (fst s) = ADJUST -> 0 <= nextPWMRate (fst s) <= 99.
Proof.
  intro s. subst s.
  assert (H : forall msgs s,
             (currentstate (fst s) = ADJUST -> 0 <= nextPWMRate (fst s) <= 99) ->
             currentstate (fst (UITask_loop flash msgs s)) = ADJUST ->
             0 <= nextPWMRate (fst (UITask_loop flash msgs s)) <= 99).
  { clear. induction msgs as [|m msgs IH]; intros s Hs; [exact Hs|].
    rewrite UITask_loop_cons. apply IH. clear IH.
    destruct s as [[st pl wo np ns] w], m as [sz v].
    cbn [fst snd currentstate nextPWMRate] in Hs.
    unfold UITask_iter, UITask_step. cbn [fst snd].
    destruct (sz =? 1).
    - destruct (v =? D_KEY); [cbn; discriminate|].
      destruct st; cbn [currentstate currentplace].
      + unfold running_key. destruct (v =? A_KEY); cbn; [intros _; lia|discriminate].
      + specialize (Hs eq_refl). destruct pl.
        * unfold adjust_out.
          destruct (v =? FOUR_KEY); [cbn; intros _; lia|].
          destruct (v =? SEV_KEY); cbn; intros _; lia.
        * unfold adjust_tens. destruct (is_digit_key v) eqn:Hd.
          -- cbn -[INT8U_of Z.quot Z.mul Z.add Z.sub].
             intros _. now apply tens_digit_range.
          -- destruct (v =? B_KEY); cbn; intros _; lia.
        * unfold adjust_ones. destruct (is_digit_key v) eqn:Hd.
          -- cbn -[INT8U_of Z.quot Z.mul Z.add Z.sub].
             intros _. now apply ones_digit_range.
          -- destruct (v =? B_KEY); [cbn; intros _; lia|].
             destruct (v =? A_KEY); cbn; [discriminate|intros _; lia].
      + cbn. discriminate.
    - destruct (sz =? 2); [|cbn; exact Hs].
      unfold spi_message. cbn [currentstate].
      destruct (v =? NO_FAULT), st; cbn; discriminate. }
  apply H. cbn. discriminate.
Qed.

(** C6. From start-up a single emergency stop key leaves [pwmrate] at 248:
    [setPwmRate] is handed the constant 0 as the pointer and copies the byte
    at address 0, here [0xF8], so the stored duty cycle is outside 0..99. *)
Theorem emergency_stop_breaks_duty_range :
  forall (wo np ns : Z),
    let s := UITask_loop vector_table [key D_KEY]
               (UITask_entry wo np ns, initial_world) in
    pwmrate (snd s) = 248 /\ ~ (0 <= pwmrate (snd s) <= 99).
Proof.
  intros wo np ns s.
  assert (H : pwmrate (snd s) = 248) by reflexivity.
  rewrite H. split; [reflexivity|lia].
Qed.

(** ** The fault word on its way to the UI task *)

Lemma spiFault_after_receipt (fw : Z) (w : world) :
  spiFault (run (fault_receipt fw) w) = fw mod 2 ^ 8.
Proof. reflexivity. Qed.

Lemma UISPISrvTask_iter_message (w : world) :
  fst (UISPISrvTask_iter w) = spi (INT8U_of (spiFault w)).
Proof.
  unfold UISPISrvTask_iter, SPIPend, spi. cbn -[INT8U_of INT16U_of].
  f_equal. apply INT16U_of_small.
  pose proof (INT8U_of_range (spiFault w)). lia.
Qed.

(** C9. The message that [UISPISrvTask] posts is two bytes long and carries
    [spiFault], an 8 bit value.  Whatever 16 bit word the device reports,
    once assigned to [spiFault] it reaches the UI task modulo 2^8: the upper
    byte of the message is zero, the UI task acts on the low byte alone, and
    two words with the same low byte are one and the same message. *)
Theorem fault_word_reaches_UI_modulo_256 :
  forall (flash : Z -> Z) (fw hi : Z) (w : world) (ui : locals),
    let msg := fst (UISPISrvTask_iter (run (fault_receipt fw) w)) in
    fst (UISPISrvTask_iter w) = spi (spiFault w mod 2 ^ 8)
    /\ msg = spi (fw mod 2 ^ 8)
    /\ 0 <= snd msg < 2 ^ 8
    /\ Z.shiftr (snd msg) 8 = 0
    /\ UITask_step flash (fst msg) (snd msg) ui
       = UITask_step flash 2 (fw mod 2 ^ 8) ui
    /\ fst (UISPISrvTask_iter (run (fault_receipt (fw + 2 ^ 8 * hi)) w)) = msg.
Proof.
  intros flash fw hi w ui msg.
  assert (Hmsg : msg = spi (fw mod 2 ^ 8)).
  { subst msg. rewrite UISPISrvTask_iter_message, spiFault_after_receipt.
    unfold INT8U_of. now rewrite Z.mod_mod by lia. }
  pose proof (Z.mod_pos_bound fw (2 ^ 8) ltac:(lia)) as Hb.
  split; [apply UISPISrvTask_iter_message|].
  split; [exact Hmsg|]. rewrite Hmsg. cbn [spi fst snd].
  split; [exact Hb|]. split; [|split; [reflexivity|]].
  - rewrite Z.shiftr_div_pow2 by lia. apply Z.div_small. exact Hb.
  - rewrite UISPISrvTask_iter_message, spiFault_after_receipt.
    unfold INT8U_of. rewrite Z.mod_mod by lia.
    f_equal. rewrite (Z.mul_comm (2 ^ 8) hi). apply Z.mod_add. lia.
Qed.

(** The word [0x0100] reports a fault in the upper byte; the UI task receives
    the value 0. *)
Example upper_byte_fault_is_lost :
  fst (UISPISrvTask_iter (run (fault_receipt 0x0100) initial_world)) = spi 0.
Proof. reflexivity. Qed.

(** ** [PWMRate] *)

Lemma posts_app (o : os_obj) (a b : list action) :
  posts o (a ++ b) = (posts o a + posts o b)%nat.
Proof. unfold posts. now rewrite filter_app, length_app. Qed.

Lemma PWMRate_returns_pwm_value (w : world) :
  PWMRate w
  = (INT16U_of (pwm_value w),
     run [OSSemPost PWMChgFlag; Fetch c_pwm_value] w).
Proof. reflexivity. Qed.

Lemma pwm_calls_from_zero (flash : Z -> Z) (cs : list pwm_call) (w : world) :
  pwm_value w = 0 ->
  Forall (fun r => r = 0) (fst (pwm_calls flash cs w))
  /\ List.length (fst (pwm_calls flash cs w)) = List.length (filter is_PWMRate cs)
  /\ pwm_value (snd (pwm_calls flash cs w)) = 0
  /\ posts PWMChgFlag (trace (snd (pwm_calls flash cs w)))
     = (posts PWMChgFlag (trace w) + List.length (filter is_PWMRate cs))%nat.
Proof.
  revert w. induction cs as [|c cs IH]; intros w Hw.
  - simpl. repeat split; [constructor | exact Hw | lia].
  - destruct c as [p| |].
    + cbn [pwm_calls filter is_PWMRate].
      destruct (IH (run (setPwmRate flash p) w)) as (H1 & H2 & H3 & H4).
      { change (value_of c_pwm_value (run (setPwmRate flash p) w) = 0).
        rewrite run_keeps by reflexivity. exact Hw. }
      repeat split; try assumption.
      rewrite H4, trace_run, posts_app.
      change (posts PWMChgFlag (setPwmRate flash p)) with 0%nat. lia.
    + cbn [pwm_calls filter is_PWMRate].
      destruct (IH (run getPwmRate w)) as (H1 & H2 & H3 & H4).
      { change (value_of c_pwm_value (run getPwmRate w) = 0).
        rewrite run_keeps by reflexivity. exact Hw. }
      repeat split; try assumption.
      rewrite H4, trace_run, posts_app.
      change (posts PWMChgFlag getPwmRate) with 0%nat. lia.
    + cbn [pwm_calls filter is_PWMRate]. rewrite PWMRate_returns_pwm_value.
      set (w1 := run [OSSemPost PWMChgFlag; Fetch c_pwm_value] w).
      destruct (IH w1) as (H1 & H2 & H3 & H4).
      { change (value_of c_pwm_value w1 = 0). subst w1.
        rewrite run_keeps by reflexivity. exact Hw. }
      destruct (pwm_calls flash cs w1) as [rs w2] eqn:E.
      cbn [fst snd List.length] in *.
      repeat split; try assumption.
      * constructor; [rewrite Hw; reflexivity | exact H1].
      * now rewrite H2.
      * rewrite H4. subst w1. rewrite trace_run, posts_app.
        change (posts PWMChgFlag [OSSemPost PWMChgFlag; Fetch c_pwm_value])
          with 1%nat. lia.
Qed.

(** No iteration of the UI task writes [pwm_value] either. *)
Lemma UITask_step_keeps_pwm_value (flash : Z -> Z) (sz v : Z) (ui : locals) :
  forallb (fun a => negb (writes c_pwm_value a))
          (snd (UITask_step flash sz v ui)) = true.
Proof.
  unfold UITask_step.
  destruct (sz =? 1).
  - destruct (v =? D_KEY); [reflexivity|].
    destruct (currentstate ui); [| |reflexivity].
    + unfold running_key. destruct (v =? A_KEY); reflexivity.
    + destruct (currentplace ui).
      * unfold adjust_out.
        destruct (v =? FOUR_KEY); [reflexivity|].
        destruct (v =? SEV_KEY); reflexivity.
      * unfold adjust_tens.
        destruct (is_digit_key v); [reflexivity|].
        destruct (v =? B_KEY); reflexivity.
      * unfold adjust_ones.
        destruct (is_digit_key v); [reflexivity|].
        destruct (v =? B_KEY); [reflexivity|].
        destruct (v =? A_KEY); [|reflexivity].
        cbn [snd]. rewrite forallb_app, status_bar_lcd_only, andb_true_r.
        destruct (nextPWMRate ui =? 0); reflexivity.
  - destruct (sz =? 2); [|reflexivity].
    unfold spi_message.
    destruct (v =? NO_FAULT), (currentstate ui); reflexivity.
Qed.

Lemma UITask_loop_keeps_pwm_value (flash : Z -> Z) (msgs : list (Z * Z))
      (s : locals * world) :
  pwm_value (snd (UITask_loop flash msgs s)) = pwm_value (snd s).
Proof.
  revert s. induction msgs as [|m msgs IH]; intro s; [reflexivity|].
  rewrite UITask_loop_cons, IH.
  unfold UITask_iter.
  pose proof (UITask_step_keeps_pwm_value flash (fst m) (snd m) (fst s)) as H.
  destruct (UITask_step flash (fst m) (snd m) (fst s)) as [ui' acts].
  cbn [snd] in *.
  change (value_of c_pwm_value (run acts (snd s)) = value_of c_pwm_value (snd s)).
  now apply run_keeps.
Qed.

(** C10. From start-up, under every sequence of [setPwmRate], [getPwmRate]
    and [PWMRate] calls, each [PWMRate] call returns 0, [pwm_value] is still
    0 at the end, and [PWMChgFlag] has been posted once per [PWMRate]
    call. *)
Theorem PWMRate_always_returns_zero :
  forall (flash : Z -> Z) (cs : list pwm_call),
    let result := pwm_calls flash cs initial_world in
    Forall (fun r => r = 0) (fst result)
    /\ List.length (fst result) = List.length (filter is_PWMRate cs)
    /\ pwm_value (snd result) = 0
    /\ posts PWMChgFlag (trace (snd result)) = List.length (filter is_PWMRate cs).
Proof.
  intros flash cs result.
  destruct (pwm_calls_from_zero flash cs initial_world eq_refl)
    as (H1 & H2 & H3 & H4).
  repeat split; assumption.
Qed.

(** ** Two tasks and the mutual exclusion objects *)

Import Interleaving.

Lemma all_schedules_complete (n : nat) (ts : list task) :
  (List.length ts <= n)%nat -> In ts (all_schedules n).
Proof.
  revert ts. induction n as [|n IH]; intros ts Hlen.
  - destruct ts; [left; reflexivity | simpl in Hlen; lia].
  - destruct ts as [|t ts]; [left; reflexivity|].
    right. simpl in Hlen. apply in_or_app.
    destruct t; [left | right]; apply in_map; apply IH; lia.
Qed.

Lemma fire_consumes (t : task) (c c' : config) :
  fire t c = Some c' ->
  (List.length (ui_todo c') + List.length (spi_todo c') + 1
   = List.length (ui_todo c) + List.length (spi_todo c))%nat.
Proof.
  unfold fire.
  destruct t; cbn [todo];
    [destruct (ui_todo c) as [|a rest] eqn:E
    |destruct (spi_todo c) as [|a rest] eqn:E]; try discriminate;
    destruct (enabled _ a c); try discriminate;
    intro H; inversion H; subst c'; cbn [ui_todo spi_todo List.length]; lia.
Qed.

Lemma schedule_consumes (ts : list task) (c c' : config) :
  schedule ts c = Some c' ->
  (List.length (ui_todo c') + List.length (spi_todo c') + List.length ts
   = List.length (ui_todo c) + List.length (spi_todo c))%nat.
Proof.
  revert c. induction ts as [|t ts IH]; intros c H.
  - inversion H. simpl. lia.
  - simpl in H. destruct (fire t c) as [c1|] eqn:E; [|discriminate].
    apply fire_consumes in E. apply IH in H. simpl. lia.
Qed.

(** A check of all schedules up to the joint length of the two functions
    covers every schedule. *)
Lemma exclusive_sound (x : cell) (c : config) :
  exclusive x (List.length (ui_todo c) + List.length (spi_todo c)) c = true ->
  forall ts c', schedule ts c = Some c' -> both_accessing x c' = false.
Proof.
  intros Hex ts c' Hrun.
  unfold exclusive in Hex. rewrite forallb_forall in Hex.
  pose proof (schedule_consumes ts c c' Hrun) as Hlen.
  assert (Hin : In ts (all_schedules (List.length (ui_todo c)
                                      + List.length (spi_todo c))))
    by (apply all_schedules_complete; lia).
  specialize (Hex ts Hin).
  rewrite Hrun in Hex. now apply negb_true_iff.
Qed.

(** X22. The duty cycle accessors pend on one and the same object,
    [PwmRateKey]; in no interleaving are both tasks at [pwmrate]. *)
Lemma pwmrate_accessors_exclude_each_other (flash : Z -> Z) (p : pointer)
      (ts : list task) (c : config) :
  schedule ts (start (setPwmRate flash p) getPwmRate initial_world) = Some c ->
  both_accessing c_pwmrate c = false.
Proof.
  apply exclusive_sound. vm_compute. reflexivity.
Qed.

(** C4. [setSpiData] writes [spiMsg] while it holds [SpiDataKey];
    [getSpiData] reads it while it holds [NewSpiData], the semaphore of the
    module, and never pends on [SpiDataKey].  No object is common to the two,
    and the interleaving in which the UI task pends and the SPI task pends
    next is admitted: both tasks then stand at [spiMsg], one about to write
    and one about to read, each inside its own section. *)
Theorem spiMsg_accessors_do_not_exclude_each_other :
  forall (flash : Z -> Z) (p : pointer),
    locks_at_access c_spiMsg [] getSpiData = Some [NewSpiData]
    /\ locks_at_access c_spiMsg [] (setSpiData flash p) = Some [SpiDataKey]
    /\ (forall o, ~ (In o [NewSpiData] /\ In o [SpiDataKey]))
    /\ exists c,
        schedule [UI; SPI]
          (start (setSpiData flash p) getSpiData initial_world) = Some c
        /\ both_accessing c_spiMsg c = true
        /\ holder c = [(NewSpiData, SPI); (SpiDataKey, UI)].
Proof.
  intros flash p.
  split; [reflexivity|]. split; [reflexivity|]. split.
  - intros o [[H1|[]] [H2|[]]]. subst o. discriminate H2.
  - eexists. split; [reflexivity|]. split; reflexivity.
Qed.

(** * Further properties of the tasks *)

(** ** Reasoning by the branches of an iteration *)

(** Splits a goal about [UITask_step flash sz v ui], [ui] given by its
    fields, into the branches of the iteration; the tests that decide a
    branch are kept as equations. *)
Ltac step_cases sz v st pl :=
  unfold UITask_step;
  destruct (sz =? 1) eqn:Hsz1;
  [ destruct (v =? D_KEY) eqn:HD;
    [ unfold emergency_stop
    | destruct st; cbn [currentstate currentplace];
      [ unfold running_key; destruct (v =? A_KEY) eqn:HA
      | destruct pl;
        [ unfold adjust_out; destruct (v =? FOUR_KEY) eqn:H4;
          [ | destruct (v =? SEV_KEY) eqn:H7 ]
        | unfold adjust_tens; destruct (is_digit_key v) eqn:Hdig;
          [ | destruct (v =? B_KEY) eqn:HB ]
        | unfold adjust_ones; destruct (is_digit_key v) eqn:Hdig;
          [ | destruct (v =? B_KEY) eqn:HB;
              [ | destruct (v =? A_KEY) eqn:HA ] ] ]
      | ] ]
  | destruct (sz =? 2) eqn:Hsz2;
    [ unfold spi_message; cbn [currentstate];
      destruct (v =? NO_FAULT) eqn:H0; destruct st
    | ] ].

Lemma UITask_loop_invariant (flash : Z -> Z) (Inv : locals * world -> Prop) :
  (forall m s, Inv s -> Inv (UITask_iter flash m s)) ->
  forall msgs s, Inv s -> Inv (UITask_loop flash msgs s).
Proof.
  intros Hstep msgs. induction msgs as [|m msgs IH]; intros s Hs; [exact Hs|].
  rewrite UITask_loop_cons. apply IH, Hstep, Hs.
Qed.

Lemma UITask_iter_unfold (flash : Z -> Z) (m : Z * Z) (s : locals * world) :
  UITask_iter flash m s
  = (fst (UITask_step flash (fst m) (snd m) (fst s)),
     run (snd (UITask_step flash (fst m) (snd m) (fst s))) (snd s)).
Proof.
  unfold UITask_iter.
  destruct (UITask_step flash (fst m) (snd m) (fst s)); reflexivity.
Qed.

Lemma digit_key_codes (k : Z) :
  is_digit_key k = true -> ZERO_KEY <= k <= NIN_KEY.
Proof.
  unfold is_digit_key. intro H. apply andb_prop in H.
  destruct H as [H1 H2]. apply Z.leb_le in H1, H2. lia.
Qed.

Lemma status_bar_not_nil (ui : locals) : status_bar ui <> [].
Proof.
  unfold status_bar. cbn [app]. discriminate.
Qed.

(** ** Messages without effect *)

(** X1. A message is without any effect, on the locals and on everything
    else, exactly when it is neither two bytes long nor a key that the
    current state reacts to: a wrong size, a key in [FAULT] other than the
    emergency stop, a key the current place has no use for. *)
Theorem message_ignored_iff_not_effective
        (flash : Z -> Z) (sz v : Z) (ui : locals) :
  (effective sz v ui = false <-> UITask_step flash sz v ui = (ui, []))
  /\ (effective sz v ui = true <-> snd (UITask_step flash sz v ui) <> []).
Proof.
  assert (Hoff : effective sz v ui = false ->
                 UITask_step flash sz v ui = (ui, [])).
  { destruct ui as [st pl wo np ns]. unfold effective, meaningful.
    cbn [currentstate currentplace]. intro H.
    step_cases sz v st pl;
      try (apply Z.eqb_eq in Hsz1; subst sz; change (1 =? 2) with false in H;
           change (1 =? 1) with true in H);
      try (rewrite Hsz1, Hsz2 in H);
      rewrite ?HD, ?HA, ?H4, ?H7, ?Hdig, ?HB in H; cbn [orb andb] in H;
      rewrite ?orb_true_r in H; try discriminate H; reflexivity. }
  assert (Hon : effective sz v ui = true ->
                snd (UITask_step flash sz v ui) <> []).
  { destruct ui as [st pl wo np ns]. unfold effective, meaningful.
    cbn [currentstate currentplace]. intro H.
    step_cases sz v st pl;
      try (apply Z.eqb_eq in Hsz1; subst sz; change (1 =? 2) with false in H;
           change (1 =? 1) with true in H);
      try (rewrite Hsz1, Hsz2 in H);
      rewrite ?HD, ?HA, ?H4, ?H7, ?Hdig, ?HB in H; cbn [orb andb] in H;
      try discriminate H; cbn [snd]; try discriminate.
    intro E. apply app_eq_nil in E. destruct E as [_ E].
    now apply status_bar_not_nil in E. }
  split; split.
  - exact Hoff.
  - intro H. destruct (effective sz v ui) eqn:E; [|reflexivity].
    exfalso. apply (Hon eq_refl). now rewrite H.
  - exact Hon.
  - intro H. destruct (effective sz v ui) eqn:E; [reflexivity|].
    exfalso. apply H. now rewrite (Hoff eq_refl).
Qed.

Lemma key_in_FAULT (flash : Z -> Z) (k : Z) (ui : locals) :
  currentstate ui = FAULT -> k <> D_KEY ->
  UITask_step flash 1 k ui = (ui, []).
Proof.
  intros Hst Hk. unfold UITask_step. simpl (1 =? 1). cbv iota.
  apply Z.eqb_neq in Hk. rewrite Hk, Hst. reflexivity.
Qed.

(** X2. While the task is in [FAULT] the keypad is dead but for the
    emergency stop: any sequence of key presses without [D_KEY] leaves the
    locals and the shared state, trace included, exactly as they were. *)
Theorem keys_in_FAULT_without_effect
        (flash : Z -> Z) (ks : list Z) (ui : locals) (w : world) :
  currentstate ui = FAULT ->
  Forall (fun k => k <> D_KEY) ks ->
  UITask_loop flash (map key ks) (ui, w) = (ui, w).
Proof.
  intros Hst Hks. induction Hks as [|k ks Hk _ IH]; [reflexivity|].
  cbn [map]. rewrite UITask_loop_cons.
  rewrite (UITask_iter_key flash k ui ui [] w (key_in_FAULT flash k ui Hst Hk)).
  exact IH.
Qed.

Lemma keys_in_FAULT_without_effect_witness :
  let ui := {| currentstate := FAULT; currentplace := TENS; whichOutput := 4;
               nextPWMRate := 30; nextSpiMsg := 1 |} in
  currentstate ui = FAULT
  /\ Forall (fun k => k <> D_KEY) [A_KEY; FOUR_KEY; B_KEY]
  /\ UITask_loop vector_table (map key [A_KEY; FOUR_KEY; B_KEY])
       (ui, initial_world) = (ui, initial_world).
Proof.
  intro ui.
  assert (Hks : Forall (fun k => k <> D_KEY) [A_KEY; FOUR_KEY; B_KEY])
    by (repeat constructor; intro E; discriminate E).
  split; [reflexivity|]. split; [exact Hks|].
  exact (keys_in_FAULT_without_effect vector_table [A_KEY; FOUR_KEY; B_KEY]
           ui initial_world eq_refl Hks).
Defined.

(** ** Words from the SPI service, continued *)

(** X3. A message of two bytes, whatever its value and whatever the state,
    touches the LCD only: the command word and the duty cycle stay as they
    are (a reported fault does not switch the outputs off), and place,
    output, accumulator and recorded command word of the task are kept. *)
Theorem fault_word_touches_display_only :
  forall (flash : Z -> Z) (v : Z) (ui : locals) (w : world),
    let s := UITask_iter flash (spi v) (ui, w) in
    forallb is_lcd (snd (UITask_step flash 2 v ui)) = true
    /\ spiMsg (snd s) = spiMsg w /\ pwmrate (snd s) = pwmrate w
    /\ spiFault (snd s) = spiFault w /\ pwm_value (snd s) = pwm_value w
    /\ currentplace (fst s) = currentplace ui
    /\ whichOutput (fst s) = whichOutput ui
    /\ nextPWMRate (fst s) = nextPWMRate ui
    /\ nextSpiMsg (fst s) = nextSpiMsg ui.
Proof.
  intros flash v ui w s. subst s.
  unfold UITask_iter, spi. cbn [fst snd].
  unfold UITask_step. simpl (2 =? 1). simpl (2 =? 2). cbv iota.
  unfold spi_message.
  destruct (v =? NO_FAULT), (currentstate ui); cbn; repeat split.
Qed.

(** ** Changes of state *)

(** X4. The task enters [ADJUST] in one way only, by [A_KEY] in [RUNNING],
    and then with a fresh selection: place [OUT], no output, accumulator 0,
    command word 0.  Nothing of an episode cut short by a fault or by the
    emergency stop is carried into the next. *)
Theorem ADJUST_entered_fresh
        (flash : Z -> Z) (sz v : Z) (ui : locals) :
  currentstate ui <> ADJUST ->
  currentstate (fst (UITask_step flash sz v ui)) = ADJUST ->
  sz = 1 /\ v = A_KEY /\ currentstate ui = RUNNING
  /\ fst (UITask_step flash sz v ui)
     = {| currentstate := ADJUST; currentplace := OUT; whichOutput := 0;
          nextPWMRate := 0; nextSpiMsg := 0 |}.
Proof.
  destruct ui as [st pl wo np ns]. cbn [currentstate]. intros Hst.
  step_cases sz v st pl; cbn [fst set_state currentstate];
    try discriminate; try (exfalso; apply Hst; reflexivity).
  - intros _. apply Z.eqb_eq in Hsz1, HA. repeat split; assumption.
  - intro E. contradiction.
Qed.

Lemma ADJUST_entered_fresh_witness :
  let ui := {| currentstate := RUNNING; currentplace := ONES;
               whichOutput := 7; nextPWMRate := 55; nextSpiMsg := 4 |} in
  currentstate ui <> ADJUST
  /\ currentstate (fst (UITask_step vector_table 1 A_KEY ui)) = ADJUST
  /\ fst (UITask_step vector_table 1 A_KEY ui)
     = {| currentstate := ADJUST; currentplace := OUT; whichOutput := 0;
          nextPWMRate := 0; nextSpiMsg := 0 |}.
Proof.
  intro ui.
  assert (H1 : currentstate ui <> ADJUST) by discriminate.
  assert (H2 : currentstate (fst (UITask_step vector_table 1 A_KEY ui))
               = ADJUST) by reflexivity.
  split; [exact H1|]. split; [exact H2|].
  exact (proj2 (proj2 (proj2
           (ADJUST_entered_fresh vector_table 1 A_KEY ui H1 H2)))).
Defined.

(** X5. Every change of [currentstate] in one iteration is one of these:
    [RUNNING] to [ADJUST] by [A_KEY]; [ADJUST] to [RUNNING] by the emergency
    stop or by [A_KEY] in place [ONES] (the back key never leaves [ADJUST]);
    [FAULT] to [RUNNING] by the emergency stop or by a zero word; anything
    to [FAULT] by a message of two bytes. *)
Theorem state_changes
        (flash : Z -> Z) (sz v : Z) (ui : locals) :
  currentstate (fst (UITask_step flash sz v ui)) <> currentstate ui ->
  match currentstate ui, currentstate (fst (UITask_step flash sz v ui)) with
  | RUNNING, ADJUST => sz = 1 /\ v = A_KEY
  | ADJUST, RUNNING =>
      sz = 1 /\ (v = D_KEY \/ (v = A_KEY /\ currentplace ui = ONES))
  | FAULT, RUNNING => (sz = 1 /\ v = D_KEY) \/ (sz = 2 /\ v = NO_FAULT)
  | RUNNING, FAULT | ADJUST, FAULT => sz = 2
  | _, _ => False
  end.
Proof.
  destruct ui as [st pl wo np ns]. cbn [currentstate currentplace].
  step_cases sz v st pl; cbn [fst set_state set_place set_rate set_output
                              currentstate];
    intro Hne; try (exfalso; apply Hne; reflexivity);
    repeat match goal with
           | H : (_ =? _) = true |- _ => apply Z.eqb_eq in H
           end;
    auto.
  destruct st; [exfalso; apply Hne; reflexivity | auto | auto].
Qed.

Lemma state_changes_witness :
  let ui := {| currentstate := ADJUST; currentplace := ONES;
               whichOutput := 4; nextPWMRate := 20; nextSpiMsg := 1 |} in
  currentstate (fst (UITask_step vector_table 1 A_KEY ui)) <> currentstate ui
  /\ (1 = 1 /\ (A_KEY = D_KEY \/ (A_KEY = A_KEY /\ currentplace ui = ONES))).
Proof.
  intro ui.
  assert (H : currentstate (fst (UITask_step vector_table 1 A_KEY ui))
              <> currentstate ui) by discriminate.
  split; [exact H|].
  exact (state_changes vector_table 1 A_KEY ui H).
Defined.

(** ** What the UI task performs *)

(** Closes a goal about the concrete list of actions of a branch. *)
Ltac branch_lists :=
  cbn [snd fst set_state set_place set_rate set_output currentstate
       currentplace whichOutput nextPWMRate nextSpiMsg];
  unfold status_bar;
  cbn [whichOutput nextPWMRate nextSpiMsg];
  repeat match goal with
         | |- context [if ?b then _ else _] => destruct b
         end;
  reflexivity.

Lemma UITask_step_ui_actions (flash : Z -> Z) (sz v : Z) (ui : locals) :
  forallb ui_action (snd (UITask_step flash sz v ui)) = true.
Proof.
  destruct ui as [st pl wo np ns]. step_cases sz v st pl; branch_lists.
Qed.

Lemma UITask_step_disciplined (flash : Z -> Z) (sz v : Z) (ui : locals) :
  disciplined None (snd (UITask_step flash sz v ui)) = true.
Proof.
  destruct ui as [st pl wo np ns]. step_cases sz v st pl; branch_lists.
Qed.

Lemma UITask_step_signals (flash : Z -> Z) (sz v : Z) (ui : locals) :
  posts NewSpiData (snd (UITask_step flash sz v ui))
  = stores c_spiMsg (snd (UITask_step flash sz v ui))
  /\ posts NewPwmRate (snd (UITask_step flash sz v ui))
     = stores c_pwmrate (snd (UITask_step flash sz v ui)).
Proof.
  destruct ui as [st pl wo np ns].
  step_cases sz v st pl; split; branch_lists.
Qed.

Lemma stores_app (c : cell) (a b : list action) :
  stores c (a ++ b) = (stores c a + stores c b)%nat.
Proof. unfold stores. now rewrite filter_app, length_app. Qed.

Lemma disciplined_app (held : option os_obj) (a b : list action) :
  disciplined held a = true ->
  disciplined held (a ++ b) = disciplined None b.
Proof.
  revert held. induction a as [|x a IH]; intros held H.
  - destruct held; [discriminate H | reflexivity].
  - destruct x as [o|o|o|o|c v|c|call]; cbn [app disciplined] in *.
    + destruct held; [discriminate H|]. now apply IH.
    + destruct held as [o'|]; [|discriminate H].
      apply andb_prop in H. destruct H as [H1 H2].
      rewrite H1. cbn [andb]. now apply IH.
    + destruct held; [discriminate H|]. now apply IH.
    + destruct held; [discriminate H|]. now apply IH.
    + destruct held as [o'|]; [|discriminate H].
      destruct (key_of c); [|discriminate H].
      apply andb_prop in H. destruct H as [H1 H2].
      rewrite H1. cbn [andb]. now apply IH.
    + destruct held as [o'|]; [|discriminate H].
      destruct (key_of c); [|discriminate H].
      apply andb_prop in H. destruct H as [H1 H2].
      rewrite H1. cbn [andb]. now apply IH.
    + destruct held; [discriminate H|]. now apply IH.
Qed.

Lemma UITask_loop_ui_actions (flash : Z -> Z) (msgs : list (Z * Z))
      (s : locals * world) :
  forallb ui_action (trace (snd s)) = true ->
  forallb ui_action (trace (snd (UITask_loop flash msgs s))) = true.
Proof.
  apply (UITask_loop_invariant flash
           (fun s => forallb ui_action (trace (snd s)) = true)).
  clear. intros m s Hs. rewrite UITask_iter_unfold. cbn [snd].
  rewrite trace_run, forallb_app, Hs. apply UITask_step_ui_actions.
Qed.


(** X6. From the start of the task, whatever messages arrive, the trace
    holds nothing but LCD calls, pends and posts of [SpiDataKey] and
    [PwmRateKey], stores to [spiMsg] and [pwmrate], and posts of
    [NewSpiData] and [NewPwmRate].  The UI task never reads a shared
    variable, never pends on a semaphore, never assigns [spiFault] or
    [pwm_value], and never posts [spiFaultFlag] or [PWMChgFlag]. *)
Theorem UITask_performs_only_its_actions :
  forall (flash : Z -> Z) (msgs : list (Z * Z)) (wo np ns : Z),
    forallb ui_action
      (trace (snd (UITask_loop flash msgs (UITask_start wo np ns)))) = true.
Proof.
  intros flash msgs wo np ns. apply UITask_loop_ui_actions. reflexivity.
Qed.

(** X7. From the start of the task, whatever messages arrive, the whole
    trace keeps the lock discipline: a mutex is pended on only when none is
    held and is posted before anything else happens, [spiMsg] is assigned
    only under [SpiDataKey] and [pwmrate] only under [PwmRateKey], and every
    semaphore post and LCD call happens with no mutex held.  At the end of
    each iteration no mutex is held. *)
Theorem UITask_keeps_lock_discipline :
  forall (flash : Z -> Z) (msgs : list (Z * Z)) (wo np ns : Z),
    disciplined None
      (trace (snd (UITask_loop flash msgs (UITask_start wo np ns)))) = true.
Proof.
  intros flash msgs wo np ns.
  apply (UITask_loop_invariant flash
           (fun s => disciplined None (trace (snd s)) = true));
    [|reflexivity].
  clear. intros m s Hs. rewrite UITask_iter_unfold. cbn [snd].
  rewrite trace_run, (disciplined_app None _ _ Hs).
  apply UITask_step_disciplined.
Qed.

(** X8. From the start of the task, whatever messages arrive, [NewSpiData]
    has been posted exactly once per assignment of [spiMsg] and [NewPwmRate]
    exactly once per assignment of [pwmrate]: every new command word and
    every new duty cycle is signalled, and nothing else is. *)
Theorem UITask_signals_every_write :
  forall (flash : Z -> Z) (msgs : list (Z * Z)) (wo np ns : Z),
    let tr := trace (snd (UITask_loop flash msgs (UITask_start wo np ns))) in
    posts NewSpiData tr = stores c_spiMsg tr
    /\ posts NewPwmRate tr = stores c_pwmrate tr.
Proof.
  intros flash msgs wo np ns.
  apply (UITask_loop_invariant flash
           (fun s => posts NewSpiData (trace (snd s))
                     = stores c_spiMsg (trace (snd s))
                     /\ posts NewPwmRate (trace (snd s))
                        = stores c_pwmrate (trace (snd s))));
    [|split; reflexivity].
  clear. intros m s [H1 H2]. rewrite UITask_iter_unfold. cbn [snd].
  rewrite trace_run, !posts_app, !stores_app, H1, H2.
  destruct (UITask_step_signals flash (fst m) (snd m) (fst s)) as [E1 E2].
  now rewrite E1, E2.
Qed.


(** ** Invariants of the selection and of the display *)

Lemma UITask_step_keeps_selection (flash : Z -> Z) (sz v : Z) (ui : locals) :
  (currentstate ui = ADJUST -> selection_ok ui) ->
  currentstate (fst (UITask_step flash sz v ui)) = ADJUST ->
  selection_ok (fst (UITask_step flash sz v ui)).
Proof.
  destruct ui as [st pl wo np ns]. unfold selection_ok.
  cbn [currentstate currentplace whichOutput nextSpiMsg].
  intro Hinv.
  step_cases sz v st pl;
    cbn [fst set_state set_place set_rate set_output currentstate
         currentplace whichOutput nextSpiMsg];
    try discriminate; intro Hst;
    try (specialize (Hinv eq_refl));
    try (left; repeat split; reflexivity);
    try (right; left; split; reflexivity);
    try (right; right; split; reflexivity);
    try exact Hinv;
    try (destruct Hinv as [(_ & _ & Hpl)|Hinv];
         [discriminate Hpl | right; exact Hinv]).
  exact (Hinv Hst).
Qed.

(** X10. From the start of the task, whatever the three locals without
    initialiser held and whatever messages arrive, in [ADJUST] the recorded
    output and command word go together: none yet (place [OUT] only),
    output 4 with [OUTPUT_ONE_MASK], or output 7 with [OUTPUT_THR_MASK].  So
    at the accept key an output has always been chosen. *)
Theorem selection_always_consistent
        (flash : Z -> Z) (msgs : list (Z * Z)) (wo np ns : Z) :
  let s := UITask_loop flash msgs (UITask_start wo np ns) in
  currentstate (fst s) = ADJUST -> selection_ok (fst s).
Proof.
  apply (UITask_loop_invariant flash
           (fun s => currentstate (fst s) = ADJUST -> selection_ok (fst s)));
    [|discriminate].
  clear. intros m s Hs. rewrite UITask_iter_unfold. cbn [fst].
  now apply UITask_step_keeps_selection.
Qed.

Lemma selection_always_consistent_witness :
  let s := UITask_loop vector_table
             (map key [A_KEY; SEV_KEY; FIV_KEY; B_KEY; B_KEY])
             (UITask_start 200 200 200) in
  currentstate (fst s) = ADJUST
  /\ whichOutput (fst s) = 7 /\ nextSpiMsg (fst s) = OUTPUT_THR_MASK
  /\ currentplace (fst s) = OUT
  /\ selection_ok (fst s).
Proof.
  intro s.
  assert (H : currentstate (fst s) = ADJUST) by reflexivity.
  split; [exact H|]. repeat (split; [reflexivity|]).
  exact (selection_always_consistent vector_table
           (map key [A_KEY; SEV_KEY; FIV_KEY; B_KEY; B_KEY]) 200 200 200 H).
Defined.

Lemma UITask_step_keeps_accumulator (flash : Z -> Z) (sz v : Z) (ui : locals) :
  (currentstate ui = ADJUST -> 0 <= nextPWMRate ui <= 99) ->
  (currentstate (fst (UITask_step flash sz v ui)) = ADJUST ->
   0 <= nextPWMRate (fst (UITask_step flash sz v ui)) <= 99)
  /\ Forall (fun n => 0 <= n <= 99)
            (shown_numbers (snd (UITask_step flash sz v ui))).
Proof.
  destruct ui as [st pl wo np ns].
  cbn [currentstate nextPWMRate]. intro Hinv.
  step_cases sz v st pl;
    cbn [fst snd set_state set_place set_rate set_output currentstate
         nextPWMRate];
    try specialize (Hinv eq_refl);
    (split;
     [first [ discriminate | exact Hinv | intros _; lia
            | intros _; exact Hinv
            | intros _; change (INT8U_of 0) with 0; lia
            | intros _; now apply tens_digit_range
            | intros _; now apply ones_digit_range ]|]);
    try (cbn; now constructor).
  - cbn -[INT8U_of Z.quot Z.mul Z.add Z.sub].
    constructor; [now apply tens_digit_range | constructor].
  - cbn -[INT8U_of Z.quot Z.mul Z.add Z.sub].
    constructor; [now apply ones_digit_range | constructor].
  - unfold shown_numbers. rewrite flat_map_app.
    apply Forall_app. split.
    + destruct (np =? 0); cbn; constructor.
    + unfold status_bar. cbn [whichOutput nextPWMRate].
      destruct (wo =? 4); [|destruct (wo =? 7)]; cbn;
        (constructor; [exact Hinv | constructor]).
Qed.

(** X11. From the start of the task, whatever messages arrive, every number
    handed to [LcdDispDecByte] is within 0..99: the display never shows a
    duty cycle of more than two digits. *)
Theorem displayed_numbers_have_two_digits :
  forall (flash : Z -> Z) (msgs : list (Z * Z)) (wo np ns : Z),
    Forall (fun n => 0 <= n <= 99)
      (shown_numbers
         (trace (snd (UITask_loop flash msgs (UITask_start wo np ns))))).
Proof.
  intros flash msgs wo np ns.
  apply (UITask_loop_invariant flash
           (fun s => (currentstate (fst s) = ADJUST ->
                      0 <= nextPWMRate (fst s) <= 99)
                     /\ Forall (fun n => 0 <= n <= 99)
                               (shown_numbers (trace (snd s)))));
    [|split; [discriminate | cbn; constructor]].
  clear. intros m s [Hacc Hshown]. rewrite UITask_iter_unfold. cbn [fst snd].
  destruct (UITask_step_keeps_accumulator flash (fst m) (snd m) (fst s) Hacc)
    as [H1 H2].
  split; [exact H1|].
  rewrite trace_run. unfold shown_numbers. rewrite flat_map_app.
  apply Forall_app. split; assumption.
Qed.

Lemma layer_shown_run (l : layer) (acts : list action) (w : world) :
  layer_shown l (run acts w) = layer_after l acts (layer_shown l w).
Proof.
  unfold layer_shown, layer_after. rewrite trace_run. apply fold_left_app.
Qed.

Lemma UITask_iter_keeps_layers (flash : Z -> Z) (m : Z * Z)
      (s : locals * world) :
  layers_match s -> layers_match (UITask_iter flash m s).
Proof.
  destruct s as [[st pl wo np ns] w], m as [sz v].
  unfold layers_match. rewrite UITask_iter_unfold.
  cbn [fst snd currentstate]. rewrite !layer_shown_run.
  intro Hinv.
  step_cases sz v st pl;
    cbn [fst snd set_state set_place set_rate set_output currentstate];
    try exact Hinv;
    try (destruct Hinv as [H1 H2]; cbn -[layer_shown];
         split; first [reflexivity | assumption | discriminate]).
  - destruct st; destruct Hinv as [H1 H2]; cbn -[layer_shown];
      (split; [reflexivity | discriminate]).
  - destruct Hinv as [H1 H2].
    assert (Hkeep : forall l x,
               layer_after l
                 ((if np =? 0
                   then setSpiData flash (AddressOf ns)
                   else setSpiData flash (Absolute EMERGENCY_STOP)
                        ++ setPwmRate flash (AddressOf np))
                  ++ status_bar {| currentstate := ADJUST;
                                   currentplace := ONES; whichOutput := wo;
                                   nextPWMRate := np; nextSpiMsg := ns |}) x
               = x).
    { intros l x. unfold status_bar. cbn [whichOutput nextPWMRate].
      destruct (np =? 0), (wo =? 4), (wo =? 7); reflexivity. }
    cbn [nextPWMRate nextSpiMsg]. rewrite !Hkeep. split; assumption.
Qed.

(** X12. From the start of the task, whatever messages arrive, exactly the
    layer that goes with the state is shown: in [FAULT] the last call for
    the fault layer was [LcdShowLayer] and the last for the status layer
    [LcdHideLayer]; in [RUNNING] and [ADJUST] the status layer was shown
    last and the fault layer is hidden or was never shown. *)
Theorem layers_follow_state :
  forall (flash : Z -> Z) (msgs : list (Z * Z)) (wo np ns : Z),
    layers_match (UITask_loop flash msgs (UITask_start wo np ns)).
Proof.
  intros flash msgs wo np ns.
  apply (UITask_loop_invariant flash layers_match).
  - intros m s. apply UITask_iter_keeps_layers.
  - unfold layers_match. cbn. split; [reflexivity | discriminate].
Qed.

(** ** The accessors as a pair *)

Lemma run_setSpiData (flash : Z -> Z) (p : pointer) (w : world) :
  spiMsg (run (setSpiData flash p) w) = INT16U_of (deref16 flash p)
  /\ pwmrate (run (setSpiData flash p) w) = pwmrate w
  /\ spiFault (run (setSpiData flash p) w) = spiFault w
  /\ pwm_value (run (setSpiData flash p) w) = pwm_value w.
Proof. repeat split. Qed.

Lemma run_setPwmRate (flash : Z -> Z) (p : pointer) (w : world) :
  pwmrate (run (setPwmRate flash p) w) = INT8U_of (deref8 flash p)
  /\ spiMsg (run (setPwmRate flash p) w) = spiMsg w
  /\ spiFault (run (setPwmRate flash p) w) = spiFault w
  /\ pwm_value (run (setPwmRate flash p) w) = pwm_value w.
Proof. repeat split. Qed.


(** X14. The same for the duty cycle: after any calls that end with a
    [setPwmRate], [getPwmRate] delivers the byte the last [setPwmRate] was
    pointed at, whatever was stored before, and leaves the shared variables
    as they are. *)
Theorem getPwmRate_delivers_last_rate :
  forall (flash : Z -> Z) (earlier : list (pointer + pointer))
         (p : pointer) (w : world),
    let set w c := match c with
                   | inl q => run (setSpiData flash q) w
                   | inr q => run (setPwmRate flash q) w
                   end in
    let w1 := run (setPwmRate flash p) (fold_left set earlier w) in
    fst (getPwmRate_call w1) = INT8U_of (deref8 flash p)
    /\ 0 <= fst (getPwmRate_call w1) < 256
    /\ (forall c, value_of c (snd (getPwmRate_call w1)) = value_of c w1).
Proof.
  intros flash earlier p w set w1.
  assert (H : fst (getPwmRate_call w1) = INT8U_of (deref8 flash p))
    by reflexivity.
  split; [exact H|]. split; [rewrite H; apply INT8U_of_range|].
  intro c. destruct c; reflexivity.
Qed.

(** ** Key presses on their way to the UI task *)

Lemma large_word_ignored (flash : Z -> Z) (v : Z) (ui : locals) :
  256 <= v -> UITask_step flash 1 v ui = (ui, []).
Proof.
  intro Hv. destruct ui as [st pl wo np ns].
  step_cases 1 v st pl; try reflexivity; try discriminate Hsz1;
    exfalso;
    try (apply digit_key_codes in Hdig; unfold NIN_KEY in Hdig);
    repeat match goal with
           | H : (_ =? _) = true |- _ => apply Z.eqb_eq in H
           end;
    unfold D_KEY, A_KEY, B_KEY, FOUR_KEY, SEV_KEY in *; lia.
Qed.

(** X15. [UIKeySrvTask] posts the address of a one byte local and [UITask]
    reads two bytes there.  The UI task sees the key that was pressed
    exactly when the byte after [keypress] is zero; when it is not, the
    press is without effect in every state, the emergency stop key
    included. *)
Theorem key_press_needs_zero_neighbour :
  forall (flash : Z -> Z) (key_code next : Z) (ui : locals),
    let msg := UIKeySrvTask_iter key_code next in
    fst msg = 1
    /\ UITask_step flash (fst msg) (snd msg) ui
       = if INT8U_of next =? 0
         then UITask_step flash 1 (INT8U_of key_code) ui
         else (ui, []).
Proof.
  intros flash key_code next ui msg. subst msg.
  unfold UIKeySrvTask_iter, queue_word. cbn [fst snd].
  split; [reflexivity|].
  pose proof (INT8U_of_range key_code) as Hk.
  pose proof (INT8U_of_range next) as Hn.
  destruct (Z.eqb_spec (INT8U_of next) 0) as [E|E].
  - rewrite E. f_equal. lia.
  - apply large_word_ignored. lia.
Qed.

(** ** Entering the duty cycle, continued *)

(** X16. In place [ONES], of any run of digit keys only the last counts: the
    accumulator ends at the tens digit it had, followed by the last digit
    pressed, the task stays in [ADJUST]/[ONES], and no command word or duty
    cycle has been stored. *)
Theorem ones_place_keeps_last_digit
        (flash : Z -> Z) (ks : list Z) (k t o wo ns : Z) (w : world) :
  0 <= t <= 9 -> 0 <= o <= 9 ->
  Forall (fun d => ZERO_KEY <= d <= NIN_KEY) (ks ++ [k]) ->
  let s := UITask_loop flash (map key (ks ++ [k]))
             ({| currentstate := ADJUST; currentplace := ONES;
                 whichOutput := wo; nextPWMRate := t * 10 + o;
                 nextSpiMsg := ns |}, w) in
  fst s = {| currentstate := ADJUST; currentplace := ONES; whichOutput := wo;
             nextPWMRate := t * 10 + (k - NUMBER_KEY_TO_DEC_FACTOR);
             nextSpiMsg := ns |}
  /\ spiMsg (snd s) = spiMsg w /\ pwmrate (snd s) = pwmrate w.
Proof.
  intros Ht Ho Hks s. subst s. revert o w Ho Hks.
  induction ks as [|d ks IH]; intros o w Ho Hks.
  - cbn [app map]. inversion Hks as [|? ? Hk _]; subst.
    rewrite UITask_loop_cons.
    rewrite (UITask_iter_key _ _ _ _ _ _
               (adjust_ones_digit flash t o k wo ns Ht Ho Hk)).
    cbn. repeat split.
  - cbn [app map]. inversion Hks as [|? ? Hd Hrest]; subst.
    rewrite UITask_loop_cons.
    rewrite (UITask_iter_key _ _ _ _ _ _
               (adjust_ones_digit flash t o d wo ns Ht Ho Hd)).
    assert (Ho' : 0 <= d - NUMBER_KEY_TO_DEC_FACTOR <= 9)
      by (unfold ZERO_KEY, NIN_KEY, NUMBER_KEY_TO_DEC_FACTOR in *; lia).
    match goal with
    | |- context [UITask_loop _ _ (_, ?w1)] =>
        destruct (IH (d - NUMBER_KEY_TO_DEC_FACTOR) w1 Ho' Hrest)
          as (H1 & H2 & H3)
    end.
    rewrite H1, H2, H3. repeat split.
Qed.

Lemma ones_place_keeps_last_digit_witness :
  let s := UITask_loop vector_table (map key ([FIV_KEY; ONE_KEY] ++ [NIN_KEY]))
             ({| currentstate := ADJUST; currentplace := ONES;
                 whichOutput := 4; nextPWMRate := 3 * 10 + 0;
                 nextSpiMsg := 1 |}, initial_world) in
  0 <= 3 <= 9 /\ 0 <= 0 <= 9
  /\ Forall (fun d => ZERO_KEY <= d <= NIN_KEY) ([FIV_KEY; ONE_KEY] ++ [NIN_KEY])
  /\ nextPWMRate (fst s) = 39.
Proof.
  intro s.
  assert (Ht : 0 <= 3 <= 9) by lia.
  assert (Ho : 0 <= 0 <= 9) by lia.
  assert (Hks : Forall (fun d => ZERO_KEY <= d <= NIN_KEY)
                       ([FIV_KEY; ONE_KEY] ++ [NIN_KEY]))
    by (repeat constructor; unfold ZERO_KEY, NIN_KEY, FIV_KEY, ONE_KEY; lia).
  split; [exact Ht|]. split; [exact Ho|]. split; [exact Hks|].
  destruct (ones_place_keeps_last_digit vector_table [FIV_KEY; ONE_KEY]
              NIN_KEY 3 0 4 1 initial_world Ht Ho Hks) as (H & _ & _).
  fold s in H. rewrite H. reflexivity.
Defined.

(** X17. At the accept key, with a selection as the task keeps it, the status
    bar is cleared and rewritten with the name of the recorded output,
    "PWM%" and the accumulator, and the cursor is switched off; these are
    the last five actions of the iteration, after the stores. *)
Theorem accept_shows_the_selection
        (flash : Z -> Z) (ui : locals) :
  currentstate ui = ADJUST -> currentplace ui = ONES -> selection_ok ui ->
  exists stored,
    snd (UITask_step flash 1 A_KEY ui)
    = stored
      ++ [Lcd (LcdDispClear UI_LAYER);
          Lcd (LcdDispString 1 1 UI_LAYER
                 (if whichOutput ui =? 4 then "OUT4" else "OUT7"));
          Lcd (LcdDispString 1 10 UI_LAYER "PWM%");
          Lcd (LcdDispDecByte 1 14 UI_LAYER (nextPWMRate ui) 0);
          Lcd (LcdCursor 2 1 UI_LAYER 0 0)]
    /\ forallb is_lcd stored = false
    /\ currentstate (fst (UITask_step flash 1 A_KEY ui)) = RUNNING.
Proof.
  destruct ui as [st pl wo np ns].
  cbn [currentstate currentplace]. intros -> -> Hsel.
  unfold selection_ok in Hsel. cbn [whichOutput nextSpiMsg currentplace] in Hsel.
  rewrite adjust_ones_accept. unfold commit. cbn [snd fst nextPWMRate nextSpiMsg].
  eexists. split; [|split; [|reflexivity]].
  - f_equal. unfold status_bar. cbn [whichOutput nextPWMRate].
    destruct Hsel as [(_ & _ & Hpl) | [[-> _] | [-> _]]];
      [discriminate Hpl | reflexivity | reflexivity].
  - destruct (np =? 0); reflexivity.
Qed.

Lemma accept_shows_the_selection_witness :
  let ui := {| currentstate := ADJUST; currentplace := ONES;
               whichOutput := 7; nextPWMRate := 0;
               nextSpiMsg := OUTPUT_THR_MASK |} in
  currentstate ui = ADJUST /\ currentplace ui = ONES /\ selection_ok ui
  /\ exists stored,
      snd (UITask_step vector_table 1 A_KEY ui)
      = stored
        ++ [Lcd (LcdDispClear UI_LAYER);
            Lcd (LcdDispString 1 1 UI_LAYER "OUT7");
            Lcd (LcdDispString 1 10 UI_LAYER "PWM%");
            Lcd (LcdDispDecByte 1 14 UI_LAYER 0 0);
            Lcd (LcdCursor 2 1 UI_LAYER 0 0)].
Proof.
  intro ui.
  assert (Hsel : selection_ok ui) by (right; right; split; reflexivity).
  split; [reflexivity|]. split; [reflexivity|]. split; [exact Hsel|].
  destruct (accept_shows_the_selection vector_table ui eq_refl eq_refl Hsel)
    as (stored & H & _).
  exists stored. exact H.
Defined.

(** ** Instances of the lemmas on episodes, ranges and exclusion *)

Lemma committed_episode_witness :
  (FOUR_KEY = FOUR_KEY \/ FOUR_KEY = SEV_KEY)
  /\ ZERO_KEY <= THR_KEY <= NIN_KEY /\ ZERO_KEY <= FIV_KEY <= NIN_KEY
  /\ let after :=
       UITask_loop vector_table
         [key A_KEY; key FOUR_KEY; key THR_KEY; key FIV_KEY; key A_KEY]
         (UITask_entry 0 0 0, initial_world) in
     spiMsg (snd after) = load16 vector_table 0
     /\ pwmrate (snd after) = 35.
Proof.
  assert (Hsel : FOUR_KEY = FOUR_KEY \/ FOUR_KEY = SEV_KEY) by (left; reflexivity).
  assert (Ht : ZERO_KEY <= THR_KEY <= NIN_KEY)
    by (unfold ZERO_KEY, THR_KEY, NIN_KEY; lia).
  assert (Ho : ZERO_KEY <= FIV_KEY <= NIN_KEY)
    by (unfold ZERO_KEY, FIV_KEY, NIN_KEY; lia).
  split; [exact Hsel|]. split; [exact Ht|]. split; [exact Ho|].
  destruct (committed_episode vector_table FOUR_KEY THR_KEY FIV_KEY OUT 0 0 0
              initial_world Hsel Ht Ho) as (_ & _ & _ & _ & _ & Hnz).
  assert (Hduty : (THR_KEY - NUMBER_KEY_TO_DEC_FACTOR) * 10
                  + (FIV_KEY - NUMBER_KEY_TO_DEC_FACTOR) <> 0)
    by (intro E; discriminate E).
  destruct (Hnz Hduty) as (Hm & Hr & _).
  split; [exact Hm | exact Hr].
Defined.

Lemma pwmrate_range_when_byte_zero_small_witness :
  load8 zero_image 0 <= 99
  /\ 0 <= pwmrate (snd (UITask_loop zero_image
                          [key A_KEY; key SEV_KEY; key NIN_KEY; key NIN_KEY;
                           key A_KEY; key D_KEY]
                          (UITask_entry 0 0 0, initial_world))) <= 99.
Proof.
  assert (H : load8 zero_image 0 <= 99) by (intro E; discriminate E).
  split; [exact H|].
  exact (pwmrate_range_when_byte_zero_small zero_image
           [key A_KEY; key SEV_KEY; key NIN_KEY; key NIN_KEY;
            key A_KEY; key D_KEY] 0 0 0 H).
Defined.

Lemma accepted_rate_in_range_witness :
  let s := UITask_loop vector_table
             [key A_KEY; key FOUR_KEY; key NIN_KEY; key NIN_KEY]
             (UITask_entry 255 255 65535, initial_world) in
  currentstate (fst s) = ADJUST
  /\ 0 <= nextPWMRate (fst s) <= 99.
Proof.
  intro s.
  assert (H : currentstate (fst s) = ADJUST) by reflexivity.
  split; [exact H|].
  exact (accepted_rate_in_range vector_table
           [key A_KEY; key FOUR_KEY; key NIN_KEY; key NIN_KEY]
           255 255 65535 H).
Defined.

Lemma pwmrate_accessors_exclude_each_other_witness :
  exists c,
    schedule [UI]
      (start (setPwmRate vector_table (AddressOf 50)) getPwmRate
         initial_world) = Some c
    /\ accessing c_pwmrate UI c = true
    /\ fire SPI c = None
    /\ both_accessing c_pwmrate c = false.
Proof.
  eexists. split; [reflexivity|]. split; [reflexivity|].
  split; [reflexivity|].
  apply (pwmrate_accessors_exclude_each_other vector_table (AddressOf 50) [UI]).
  reflexivity.
Defined.

(** ** When the command word and the duty cycle change *)

(** X18. One iteration changes [spiMsg] only at the emergency stop key or at
    the accept key in [ADJUST]/[ONES], and changes [pwmrate] only at the
    emergency stop key or at that accept key with a nonzero accumulator.  A
    value accepted with duty cycle 0 stores a command word and leaves the
    duty cycle stored earlier in place. *)
Theorem shared_variables_change_only_on_stop_or_accept :
  forall (flash : Z -> Z) (sz v : Z) (ui : locals) (w : world),
    let s := UITask_iter flash (sz, v) (ui, w) in
    (spiMsg (snd s) <> spiMsg w ->
     sz = 1
     /\ (v = D_KEY
         \/ (v = A_KEY /\ currentstate ui = ADJUST /\ currentplace ui = ONES)))
    /\ (pwmrate (snd s) <> pwmrate w ->
        sz = 1
        /\ (v = D_KEY
            \/ (v = A_KEY /\ currentstate ui = ADJUST
                /\ currentplace ui = ONES /\ nextPWMRate ui <> 0))).
Proof.
  intros flash sz v ui w s. subst s. rewrite UITask_iter_unfold.
  cbn [fst snd]. destruct ui as [st pl wo np ns].
  cbn [currentstate currentplace nextPWMRate].
  change (spiMsg ?x) with (value_of c_spiMsg x).
  change (pwmrate ?x) with (value_of c_pwmrate x).
  destruct (np =? 0) eqn:Hnp;
    step_cases sz v st pl; cbn [snd nextPWMRate nextSpiMsg]; rewrite ?Hnp;
    (split; intro Hne;
     first
       [ exfalso; apply Hne; apply run_keeps; branch_lists
       | repeat match goal with
                | H : (_ =? _) = true |- _ => apply Z.eqb_eq in H
                | H : (_ =? _) = false |- _ => apply Z.eqb_neq in H
                end;
         tauto ]).
Qed.
